(** * The Opus JNI bridge of WiChat: app/src/main/cpp/opus_jni.cpp

    The file embeds the seven JNI entry points of [opus_jni.cpp] as functions
    of a state-and-fault monad over an explicit world: the Java heap of byte
    arrays, the native heap of blocks this layer allocates, the state of the
    Opus library, the list of library calls made so far and the log.

    The Opus library itself is not part of the repository: it is an
    interface ([OpusLib]), and the theorems of the contract are stated for an
    arbitrary implementation of it.  [Toy] is one small implementation, used
    to run the entry points on concrete inputs. *)

From Stdlib Require Import ZArith List Lia Strings.Byte.
From stdpp Require Import gmap list fin_maps strings.

Local Open Scope Z_scope.

(** ** Machine data *)

Abbreviation byte := Byte.byte.

(** A pointer to a codec instance is its address read as a 64-bit signed
    integer, so that [reinterpret_cast<jlong>] and its inverse are the
    identity; [nullptr] is 0. *)
Definition ptr := Z.
Definition jlong := Z.
Definition jint := Z.
Definition jboolean := bool.

(** Blocks of the native heap and Java arrays are named by natural numbers. *)
Definition addr := nat.
Definition jref := nat.

(** A [jbyteArray] is a reference to a Java array or [nullptr] ([None]). *)
Definition jbyteArray := option jref.

Definition byte_val (b : byte) : Z := Z.of_N (Byte.to_N b).

Definition byte_of_Z (z : Z) : byte :=
  default Byte.x00 (Byte.of_N (Z.to_N (z mod 256))).

(** [int] arithmetic of the target: 32 bits, two's complement. *)
Definition wrap32 (z : Z) : Z := (z + 2147483648) mod 4294967296 - 2147483648.

Definition sint16 (z : Z) : Z := (z + 32768) mod 65536 - 32768.

(** [reinterpret_cast<int16_t*>(pcm_bytes)]: the bytes read two by two as
    little-endian 16-bit samples (every Android ABI is little-endian); a
    trailing odd byte is not a sample. *)
Fixpoint bytes_to_shorts (bs : list byte) : list Z :=
  match bs with
  | lo :: hi :: rest =>
      sint16 (byte_val lo + 256 * byte_val hi) :: bytes_to_shorts rest
  | _ => []
  end.

Definition short_to_bytes (s : Z) : list byte :=
  [byte_of_Z s; byte_of_Z ((s mod 65536) / 256)].

(** [reinterpret_cast<jbyte*>(pcm_data)]: the memory image of the samples. *)
Definition shorts_to_bytes (ss : list Z) : list byte :=
  flat_map short_to_bytes ss.

(** ** The Opus library, as this layer sees it (opus.h) *)

(** The requests this file builds with the [OPUS_SET_*] macros. *)
Inductive CtlRequest : Type :=
  | OPUS_SET_BITRATE (x : Z)
  | OPUS_SET_COMPLEXITY (x : Z)
  | OPUS_SET_VBR (x : Z)
  | OPUS_SET_DTX (x : Z)
  | OPUS_SET_SIGNAL (x : Z)
  | OPUS_SET_LSB_DEPTH (x : Z).

(** The two constants of opus_defines.h this file names, and one function
    per library entry point.  A function that has out parameters returns
    what it stores through them next to its result: [lib_encoder_create] the
    error code and the instance, [lib_encode] the byte count and the bytes
    written from the start of [data], [lib_decode] the sample count and the
    samples written from the start of [pcm].  Input buffers are [const] in
    opus.h: they are read, never written. *)
Class OpusLib : Type := {
  OPUS_OK : Z;
  OPUS_SIGNAL_VOICE : Z;
  lib_state : Type;
  lib_encoder_create : Z -> Z -> Z -> lib_state -> Z * ptr * lib_state;
  lib_encoder_ctl : ptr -> CtlRequest -> lib_state -> Z * lib_state;
  lib_decoder_create : Z -> Z -> lib_state -> Z * ptr * lib_state;
  lib_encode : ptr -> list Z -> Z -> Z -> lib_state -> Z * list byte * lib_state;
  lib_decode :
    ptr -> list byte -> Z -> Z -> Z -> lib_state -> Z * list Z * lib_state;
  lib_encoder_destroy : ptr -> lib_state -> lib_state;
  lib_decoder_destroy : ptr -> lib_state -> lib_state;
  lib_strerror : Z -> string;
  lib_get_version_string : string
}.

(** A call into the library, with the arguments this layer passed. *)
Inductive LibCall : Type :=
  | CallEncoderCreate (Fs channels application : Z)
  | CallEncoderCtl (st : ptr) (request : CtlRequest)
  | CallDecoderCreate (Fs channels : Z)
  | CallEncode (st : ptr) (pcm : list Z) (frame_size max_data_bytes : Z)
  | CallDecode (st : ptr) (data : list byte) (len frame_size decode_fec : Z)
  | CallEncoderDestroy (st : ptr)
  | CallDecoderDestroy (st : ptr)
  | CallStrerror (error : Z)
  | CallGetVersionString.

(** The release modes of jni.h; [JNI_COPY_BACK] is mode 0. *)
Inductive ReleaseMode : Type :=
  | JNI_COPY_BACK
  | JNI_COMMIT
  | JNI_ABORT.

Inductive LogPriority : Type :=
  | ANDROID_LOG_DEBUG
  | ANDROID_LOG_INFO
  | ANDROID_LOG_ERROR.

(** ** The world and the monad *)

Section Bridge.

Context {L : OpusLib}.

(** [stale] is what a cell of a fresh native block holds before anything is
    written to it: [new T[n]] does not initialise. *)
Record World : Type := mkWorld {
  lib : lib_state;
  jheap : gmap jref (list byte);
  nheap : gmap addr (list byte);
  calls : list LibCall;
  logcat : list (LogPriority * string);
  stale : nat -> byte
}.

Definition with_lib (l : lib_state) (w : World) : World :=
  mkWorld l (jheap w) (nheap w) (calls w) (logcat w) (stale w).

Definition with_jheap (h : gmap jref (list byte)) (w : World) : World :=
  mkWorld (lib w) h (nheap w) (calls w) (logcat w) (stale w).

Definition with_nheap (h : gmap addr (list byte)) (w : World) : World :=
  mkWorld (lib w) (jheap w) h (calls w) (logcat w) (stale w).

Definition with_calls (cs : list LibCall) (w : World) : World :=
  mkWorld (lib w) (jheap w) (nheap w) cs (logcat w) (stale w).

Definition with_logcat (ls : list (LogPriority * string)) (w : World) : World :=
  mkWorld (lib w) (jheap w) (nheap w) (calls w) ls (stale w).

(** A run ends with a value, or at the first step whose behaviour C++ or JNI
    leave undefined (a read or write outside a block, a null or dangling
    array reference); [Fault] keeps the world at that step. *)
Inductive Outcome (A : Type) : Type :=
  | Ok (a : A) (w : World)
  | Fault (w : World).

Arguments Ok {A} a w.
Arguments Fault {A} w.

Definition M (A : Type) : Type := World -> Outcome A.

#[global] Instance M_ret : MRet M := fun A a w => Ok a w.

#[global] Instance M_bind : MBind M := fun A B f m w =>
  match m w with
  | Ok a w1 => f a w1
  | Fault w1 => Fault w1
  end.

Definition final_world {A} (o : Outcome A) : World :=
  match o with
  | Ok _ w => w
  | Fault w => w
  end.

(** The value a run returned, if it returned. *)
Definition returned {A} (o : Outcome A) : option A :=
  match o with
  | Ok a _ => Some a
  | Fault _ => None
  end.

(** The length of the Java array a run returned, if it returned one. *)
Definition returned_length (o : Outcome jbyteArray) : option Z :=
  match o with
  | Ok (Some r) w => (fun bs => Z.of_nat (length bs)) <$> jheap w !! r
  | _ => None
  end.

(** ** Logging ([__android_log_print]); the formatted arguments are left out *)

Definition log (prio : LogPriority) (fmt : string) : M unit := fun w =>
  Ok tt (with_logcat (logcat w ++ [(prio, fmt)]) w).

Definition LOGE := log ANDROID_LOG_ERROR.
Definition LOGI := log ANDROID_LOG_INFO.
Definition LOGD := log ANDROID_LOG_DEBUG.

(** ** The native heap: [new T[n]], [delete[]], reads and writes of blocks

    Blocks are sized in bytes: [new int16_t[n]] is a block of [2 * n]. *)

Definition new_array (size : nat) : M addr := fun w =>
  let a := fresh (dom (nheap w)) in
  Ok a (with_nheap (<[a := map (stale w) (seq 0 size)]> (nheap w)) w).

Definition delete_array (a : addr) : M unit := fun w =>
  match nheap w !! a with
  | Some _ => Ok tt (with_nheap (delete a (nheap w)) w)
  | None => Fault w
  end.

Definition read_block (a : addr) : M (list byte) := fun w =>
  match nheap w !! a with
  | Some bs => Ok bs w
  | None => Fault w
  end.

(** Writing [bs] from the start of block [a]; writing past its end faults. *)
Definition write_block (a : addr) (bs : list byte) : M unit := fun w =>
  match nheap w !! a with
  | Some old =>
      if decide (length bs <= length old)%nat
      then Ok tt (with_nheap (<[a := bs ++ drop (length bs) old]> (nheap w)) w)
      else Fault w
  | None => Fault w
  end.

(** ** JNI *)

(** [GetByteArrayElements(array, nullptr)]: the elements in a native block.
    (A VM may hand out the array's own storage instead of a copy; nothing
    below writes to the block, so the two cannot be told apart here.) *)
Definition GetByteArrayElements (array : jbyteArray) : M addr := fun w =>
  match array with
  | Some r =>
      match jheap w !! r with
      | Some bs =>
          let a := fresh (dom (nheap w)) in
          Ok a (with_nheap (<[a := bs]> (nheap w)) w)
      | None => Fault w
      end
  | None => Fault w
  end.

Definition GetArrayLength (array : jbyteArray) : M Z := fun w =>
  match array with
  | Some r =>
      match jheap w !! r with
      | Some bs => Ok (Z.of_nat (length bs)) w
      | None => Fault w
      end
  | None => Fault w
  end.

(** Mode 0 copies the block back and frees it, [JNI_COMMIT] copies back and
    keeps it, [JNI_ABORT] frees it without copying back. *)
Definition ReleaseByteArrayElements
    (array : jbyteArray) (elems : addr) (mode : ReleaseMode) : M unit :=
  fun w =>
    match array, nheap w !! elems with
    | Some r, Some bs =>
        let copied := with_jheap (<[r := bs]> (jheap w)) w in
        match mode with
        | JNI_COPY_BACK => Ok tt (with_nheap (delete elems (nheap w)) copied)
        | JNI_COMMIT => Ok tt copied
        | JNI_ABORT => Ok tt (with_nheap (delete elems (nheap w)) w)
        end
    | _, _ => Fault w
    end.

(** [NewByteArray(length)]: a fresh zero-filled array, or [nullptr] (with a
    pending NegativeArraySizeException) for a negative length. *)
Definition NewByteArray (length : Z) : M jbyteArray := fun w =>
  if length <? 0 then Ok None w
  else
    let r := fresh (dom (jheap w)) in
    Ok (Some r)
       (with_jheap (<[r := replicate (Z.to_nat length) Byte.x00]> (jheap w)) w).

(** [SetByteArrayRegion(array, start, len, buf)]: [len] bytes read from the
    start of block [buf] replace the elements [start .. start+len-1].  A
    region outside the array (an exception in Java) or a read past the end
    of [buf] ends the run. *)
Definition SetByteArrayRegion
    (array : jbyteArray) (start len : Z) (buf : addr) : M unit := fun w =>
  match array, nheap w !! buf with
  | Some r, Some src =>
      match jheap w !! r with
      | Some old =>
          if decide (0 <= start /\ 0 <= len /\
                     start + len <= Z.of_nat (length old) /\
                     len <= Z.of_nat (length src))
          then Ok tt (with_jheap
                 (<[r := take (Z.to_nat start) old ++ take (Z.to_nat len) src
                         ++ drop (Z.to_nat (start + len)) old]> (jheap w)) w)
          else Fault w
      | None => Fault w
      end
  | _, _ => Fault w
  end.

(** ** Calls into the library: each is recorded, then run on the library state *)

Definition library {A} (c : LibCall) (f : lib_state -> A * lib_state) : M A :=
  fun w =>
    Ok (f (lib w)).1 (with_lib (f (lib w)).2 (with_calls (calls w ++ [c]) w)).

Definition opus_encoder_create (Fs channels application : Z) : M (Z * ptr) :=
  library (CallEncoderCreate Fs channels application)
          (lib_encoder_create Fs channels application).

Definition opus_encoder_ctl (st : ptr) (request : CtlRequest) : M Z :=
  library (CallEncoderCtl st request) (lib_encoder_ctl st request).

Definition opus_decoder_create (Fs channels : Z) : M (Z * ptr) :=
  library (CallDecoderCreate Fs channels) (lib_decoder_create Fs channels).

Definition opus_strerror (error : Z) : M string :=
  library (CallStrerror error) (fun l => (lib_strerror error, l)).

Definition opus_get_version_string : M string :=
  library CallGetVersionString (fun l => (lib_get_version_string, l)).

Definition opus_encoder_destroy (st : ptr) : M unit :=
  library (CallEncoderDestroy st) (fun l => (tt, lib_encoder_destroy st l)).

Definition opus_decoder_destroy (st : ptr) : M unit :=
  library (CallDecoderDestroy st) (fun l => (tt, lib_decoder_destroy st l)).

(** [opus_encode(st, pcm, frame_size, data, max_data_bytes)]: the library
    reads the samples at [pcm] and writes its packet at [data]. *)
Definition opus_encode
    (st : ptr) (pcm : addr) (frame_size : Z) (data : addr)
    (max_data_bytes : Z) : M Z :=
  src ← read_block pcm;
  '(n, out) ← library
      (CallEncode st (bytes_to_shorts src) frame_size max_data_bytes)
      (lib_encode st (bytes_to_shorts src) frame_size max_data_bytes);
  write_block data out;;
  mret n.

(** [opus_decode(st, data, len, pcm, frame_size, decode_fec)]: the library
    reads the packet at [data] and writes its samples at [pcm]. *)
Definition opus_decode
    (st : ptr) (data : addr) (len : Z) (pcm : addr) (frame_size : Z)
    (decode_fec : Z) : M Z :=
  src ← read_block data;
  '(n, out) ← library
      (CallDecode st src len frame_size decode_fec)
      (lib_decode st src len frame_size decode_fec);
  write_block pcm (shorts_to_bytes out);;
  mret n.

(** ** The entry points *)

Definition Java_com_bitchat_android_audio_OpusCodec_nativeInitEncoder
    (sample_rate channels application bitrate complexity : jint)
    (vbr dtx : jboolean) : M jlong :=
  LOGI "Initializing Opus encoder:";;
  LOGI "  Sample rate: %d Hz";;
  LOGI "  Channels: %d";;
  LOGI "  Application: %d";;
  LOGI "  Bitrate: %d bps";;
  LOGI "  Complexity: %d";;
  LOGI "  VBR: %s";;
  LOGI "  DTX: %s";;
  '(error, encoder) ← opus_encoder_create sample_rate channels application;
  if negb (error =? OPUS_OK) || (encoder =? 0) then
    opus_strerror error;;
    LOGE "Failed to create Opus encoder: %s";;
    mret 0
  else
    opus_encoder_ctl encoder (OPUS_SET_BITRATE bitrate);;
    opus_encoder_ctl encoder (OPUS_SET_COMPLEXITY complexity);;
    opus_encoder_ctl encoder (OPUS_SET_VBR (if vbr then 1 else 0));;
    opus_encoder_ctl encoder (OPUS_SET_DTX (if dtx then 1 else 0));;
    opus_encoder_ctl encoder (OPUS_SET_SIGNAL OPUS_SIGNAL_VOICE);;
    opus_encoder_ctl encoder (OPUS_SET_LSB_DEPTH 16);;
    LOGI "Opus encoder initialized successfully";;
    mret encoder.

Definition Java_com_bitchat_android_audio_OpusCodec_nativeInitDecoder
    (sample_rate channels : jint) : M jlong :=
  LOGI "Initializing Opus decoder:";;
  LOGI "  Sample rate: %d Hz";;
  LOGI "  Channels: %d";;
  '(error, decoder) ← opus_decoder_create sample_rate channels;
  if negb (error =? OPUS_OK) || (decoder =? 0) then
    opus_strerror error;;
    LOGE "Failed to create Opus decoder: %s";;
    mret 0
  else
    LOGI "Opus decoder initialized successfully";;
    mret decoder.

Definition Java_com_bitchat_android_audio_OpusCodec_nativeEncode
    (encoder_handle : jlong) (pcm_data : jbyteArray) (frame_size : jint)
    : M jbyteArray :=
  if encoder_handle =? 0 then
    LOGE "Encoder not initialized";;
    mret None
  else
    let encoder := encoder_handle in
    pcm_bytes ← GetByteArrayElements pcm_data;
    pcm_length ← GetArrayLength pcm_data;
    let pcm_shorts := pcm_bytes in
    let pcm_samples := pcm_length `quot` 2 in
    let max_encoded_size := 1024 in
    encoded_data ← new_array (Z.to_nat max_encoded_size);
    encoded_bytes ←
      opus_encode encoder pcm_shorts frame_size encoded_data max_encoded_size;
    ReleaseByteArrayElements pcm_data pcm_bytes JNI_ABORT;;
    if encoded_bytes <? 0 then
      opus_strerror encoded_bytes;;
      LOGE "Opus encoding failed: %s";;
      delete_array encoded_data;;
      mret None
    else
      LOGD "Encoded %d samples -> %d bytes (%.1f%% compression)";;
      result ← NewByteArray encoded_bytes;
      SetByteArrayRegion result 0 encoded_bytes encoded_data;;
      delete_array encoded_data;;
      mret result.

Definition Java_com_bitchat_android_audio_OpusCodec_nativeDecode
    (decoder_handle : jlong) (opus_data : jbyteArray) (frame_size : jint)
    : M jbyteArray :=
  if decoder_handle =? 0 then
    LOGE "Decoder not initialized";;
    mret None
  else
    let decoder := decoder_handle in
    opus_bytes ← GetByteArrayElements opus_data;
    opus_length ← GetArrayLength opus_data;
    let max_frame_size := 1024 in
    pcm_data ← new_array (Z.to_nat (2 * max_frame_size));
    decoded_samples ←
      opus_decode decoder opus_bytes opus_length pcm_data frame_size 0;
    ReleaseByteArrayElements opus_data opus_bytes JNI_ABORT;;
    if decoded_samples <? 0 then
      opus_strerror decoded_samples;;
      LOGE "Opus decoding failed: %s";;
      delete_array pcm_data;;
      mret None
    else
      LOGD "Decoded %d bytes -> %d samples";;
      let pcm_bytes_count := wrap32 (decoded_samples * 2) in
      result ← NewByteArray pcm_bytes_count;
      SetByteArrayRegion result 0 pcm_bytes_count pcm_data;;
      delete_array pcm_data;;
      mret result.

Definition Java_com_bitchat_android_audio_OpusCodec_nativeGetVersion
    : M string :=
  version ← opus_get_version_string;
  LOGI "Opus version: %s";;
  mret version.

Definition Java_com_bitchat_android_audio_OpusCodec_nativeReleaseEncoder
    (encoder_handle : jlong) : M unit :=
  if negb (encoder_handle =? 0) then
    let encoder := encoder_handle in
    opus_encoder_destroy encoder;;
    LOGI "Opus encoder released"
  else mret tt.

Definition Java_com_bitchat_android_audio_OpusCodec_nativeReleaseDecoder
    (decoder_handle : jlong) : M unit :=
  if negb (decoder_handle =? 0) then
    let decoder := decoder_handle in
    opus_decoder_destroy decoder;;
    LOGI "Opus decoder released"
  else mret tt.

(** ** Scenarios built from the entry points *)

(** A caller's round trip: create an encoder and a decoder with the same
    sample rate and channel count, encode the frame held by [pcm] and decode
    the packet with the same frame size. *)
Definition round_trip
    (sample_rate channels application bitrate complexity : jint)
    (vbr dtx : jboolean) (pcm : jbyteArray) (frame_size : jint)
    : M jbyteArray :=
  enc ← Java_com_bitchat_android_audio_OpusCodec_nativeInitEncoder
          sample_rate channels application bitrate complexity vbr dtx;
  dec ← Java_com_bitchat_android_audio_OpusCodec_nativeInitDecoder
          sample_rate channels;
  packet ← Java_com_bitchat_android_audio_OpusCodec_nativeEncode
             enc pcm frame_size;
  Java_com_bitchat_android_audio_OpusCodec_nativeDecode dec packet frame_size.

(** A call of the Java class [OpusCodec] into this file. *)
Inductive Op : Type :=
  | InitEncoder (sample_rate channels application bitrate complexity : jint)
                (vbr dtx : jboolean)
  | InitDecoder (sample_rate channels : jint)
  | Encode (handle : jlong) (pcm_data : jbyteArray) (frame_size : jint)
  | Decode (handle : jlong) (opus_data : jbyteArray) (frame_size : jint)
  | GetVersion
  | ReleaseEncoder (handle : jlong)
  | ReleaseDecoder (handle : jlong).

(** The caller's ledger: the tokens of the sessions it has created and not
    yet released.  A creation that returns the sentinel adds nothing. *)
Definition run_op (o : Op) (tokens : list jlong) : M (list jlong) :=
  match o with
  | InitEncoder sample_rate channels application bitrate complexity vbr dtx =>
      t ← Java_com_bitchat_android_audio_OpusCodec_nativeInitEncoder
            sample_rate channels application bitrate complexity vbr dtx;
      mret (if t =? 0 then tokens else t :: tokens)
  | InitDecoder sample_rate channels =>
      t ← Java_com_bitchat_android_audio_OpusCodec_nativeInitDecoder
            sample_rate channels;
      mret (if t =? 0 then tokens else t :: tokens)
  | Encode handle pcm_data frame_size =>
      Java_com_bitchat_android_audio_OpusCodec_nativeEncode
        handle pcm_data frame_size;;
      mret tokens
  | Decode handle opus_data frame_size =>
      Java_com_bitchat_android_audio_OpusCodec_nativeDecode
        handle opus_data frame_size;;
      mret tokens
  | GetVersion =>
      Java_com_bitchat_android_audio_OpusCodec_nativeGetVersion;;
      mret tokens
  | ReleaseEncoder handle =>
      Java_com_bitchat_android_audio_OpusCodec_nativeReleaseEncoder handle;;
      mret (filter (fun t => t ≠ handle) tokens)
  | ReleaseDecoder handle =>
      Java_com_bitchat_android_audio_OpusCodec_nativeReleaseDecoder handle;;
      mret (filter (fun t => t ≠ handle) tokens)
  end.

Fixpoint run_ops (os : list Op) (tokens : list jlong) : M (list jlong) :=
  match os with
  | [] => mret tokens
  | o :: os' => tokens' ← run_op o tokens; run_ops os' tokens'
  end.

(** ** What the library promises (opus.h, and the allocator under it) *)

(** The state of the library after a list of [opus_encoder_ctl] requests. *)
Definition apply_ctls (st : ptr) (requests : list CtlRequest) (l : lib_state)
    : lib_state :=
  fold_left (fun l request => (lib_encoder_ctl st request l).2) requests l.

(** [opus_encode] writes at most [max_data_bytes] bytes, and a count that is
    not an error is the number of bytes written. *)
Definition EncodeHonoursBound : Prop :=
  forall st pcm frame_size max_data_bytes l n out l',
    lib_encode st pcm frame_size max_data_bytes l = (n, out, l') ->
    Z.of_nat (length out) <= Z.max 0 max_data_bytes /\
    (0 <= n -> n = Z.of_nat (length out)).

(** [live l] being the addresses of the instances created and not yet
    destroyed in state [l]: an instance stays live until it is destroyed,
    and a new instance is not at the address of a live one. *)
Record DistinctInstances (live : lib_state -> gset ptr) : Prop := {
  encoder_create_fresh : forall Fs channels application l error st l',
    lib_encoder_create Fs channels application l = (error, st, l') ->
    (live l ⊆ live l') /\
    (error = OPUS_OK -> st ≠ 0 -> (st ∉ live l) /\ (st ∈ live l'));
  decoder_create_fresh : forall Fs channels l error st l',
    lib_decoder_create Fs channels l = (error, st, l') ->
    (live l ⊆ live l') /\
    (error = OPUS_OK -> st ≠ 0 -> (st ∉ live l) /\ (st ∈ live l'));
  encoder_ctl_keeps : forall st request l,
    live l ⊆ live (lib_encoder_ctl st request l).2;
  encode_keeps : forall st pcm frame_size max_data_bytes l,
    live l ⊆ live (lib_encode st pcm frame_size max_data_bytes l).2;
  decode_keeps : forall st data len frame_size decode_fec l,
    live l ⊆ live (lib_decode st data len frame_size decode_fec l).2;
  encoder_destroy_keeps : forall st l,
    live l ∖ {[st]} ⊆ live (lib_encoder_destroy st l);
  decoder_destroy_keeps : forall st l,
    live l ∖ {[st]} ⊆ live (lib_decoder_destroy st l)
}.

(** The requests [nativeInitEncoder] is to make on a new encoder: the four
    settings of the caller, then the voice hint and the 16-bit depth. *)
Definition encoder_requests (bitrate complexity : jint) (vbr dtx : jboolean)
    : list CtlRequest :=
  [OPUS_SET_BITRATE bitrate; OPUS_SET_COMPLEXITY complexity;
   OPUS_SET_VBR (if vbr then 1 else 0); OPUS_SET_DTX (if dtx then 1 else 0);
   OPUS_SET_SIGNAL OPUS_SIGNAL_VOICE; OPUS_SET_LSB_DEPTH 16].

(** What a creation call of the library answers: an error code and an
    instance.  It is accepted when the code is [OPUS_OK] and the instance is
    not null, rejected otherwise. *)
Definition rejected (error : Z) (st : ptr) : Prop := error ≠ OPUS_OK \/ st = 0.
Definition accepted (error : Z) (st : ptr) : Prop := error = OPUS_OK /\ st ≠ 0.

(** A computation keeps the live instances when every run of it that
    returns leaves them live. *)
Definition keeps_live (live : lib_state -> gset ptr) {A} (m : M A) : Prop :=
  forall w a w', m w = Ok a w' -> live (lib w) ⊆ live (lib w').

(** The ledger lists each session once, under a nonzero token that is the
    address of a live instance. *)
Definition ledger_ok (live : lib_state -> gset ptr)
    (tokens : list jlong) (w : World) : Prop :=
  NoDup tokens /\ forall t, t ∈ tokens -> t ≠ 0 /\ t ∈ live (lib w).

(** The content of a fresh block of [size] bytes once [written] has been
    stored at its start. *)
Definition scratch_image (w : World) (size : nat) (written : list byte)
    : list byte :=
  written ++ drop (length written) (map (stale w) (seq 0 size)).

End Bridge.

Arguments Ok {L A} a w.
Arguments Fault {L A} w.

(** ** What a caller can observe of a world *)

Section Observations.

Context {L : OpusLib}.

(** Two worlds that differ at most in the log and in the list of library
    calls made so far. *)
Definition same_state (w1 w2 : World) : Prop :=
  lib w1 = lib w2 /\ jheap w1 = jheap w2 /\ nheap w1 = nheap w2 /\
  stale w1 = stale w2.

(** Two runs that end the same way: both return, the same value, or both
    fault, and in worlds that are the same but for log and call list. *)
Definition agree {A} (o1 o2 : Outcome A) : Prop :=
  match o1, o2 with
  | Ok a1 w1, Ok a2 w2 => a1 = a2 /\ same_state w1 w2
  | Fault w1, Fault w2 => same_state w1 w2
  | _, _ => False
  end.

(** A computation that does not read the log or the call list. *)
Definition log_blind {A} (m : M A) : Prop :=
  forall w1 w2, same_state w1 w2 -> agree (m w1) (m w2).

(** A computation that leaves the Java arrays as they are, on every path. *)
Definition keeps_arrays {A} (m : M A) : Prop :=
  forall w, jheap (final_world (m w)) = jheap w.

(** A computation that removes no Java array and creates at most one, at
    the next free reference. *)
Definition adds_at_most_one {A} (m : M A) : Prop :=
  forall w,
    dom (jheap w) ⊆ dom (jheap (final_world (m w))) /\
    dom (jheap (final_world (m w))) ⊆ {[fresh (dom (jheap w))]} ∪ dom (jheap w).

End Observations.

(** ** A small implementation of the library interface

    A packet is three bytes, the
    frame size (low byte, high byte) and the channel count; decoding gives
    silence.  Frame sizes and buffer bounds follow opus.h: [frame_size] counts
    samples per channel, [lib_decode] reports samples per channel and writes
    that many samples for each channel, and nothing is written past
    [max_data_bytes] bytes or [frame_size] samples per channel. *)
Module Toy.

Definition OK : Z := 0.
Definition OPUS_BAD_ARG : Z := -1.
Definition OPUS_BUFFER_TOO_SMALL : Z := -2.
Definition OPUS_INVALID_PACKET : Z := -4.

Record state : Type := mkState {
  encoders : gmap Z Z;
  decoders : gmap Z Z
}.

Definition init : state := mkState ∅ ∅.

Definition live (s : state) : gset Z := dom (encoders s) ∪ dom (decoders s).

(** The address of a new instance: not null, and not that of a live one. *)
Definition next (s : state) : Z := fresh ({[0]} ∪ live s).

Definition valid_Fs (Fs : Z) : bool :=
  (Fs =? 8000) || (Fs =? 12000) || (Fs =? 16000) || (Fs =? 24000)
  || (Fs =? 48000).

Definition valid_channels (channels : Z) : bool :=
  (channels =? 1) || (channels =? 2).

Definition valid_application (application : Z) : bool :=
  (application =? 2048) || (application =? 2049) || (application =? 2051).

Definition encoder_create (Fs channels application : Z) (s : state)
    : Z * ptr * state :=
  if valid_Fs Fs && valid_channels channels && valid_application application
  then (OK, next s,
        mkState (<[next s := channels]> (encoders s)) (decoders s))
  else (OPUS_BAD_ARG, 0, s).

Definition decoder_create (Fs channels : Z) (s : state) : Z * ptr * state :=
  if valid_Fs Fs && valid_channels channels
  then (OK, next s,
        mkState (encoders s) (<[next s := channels]> (decoders s)))
  else (OPUS_BAD_ARG, 0, s).

Definition encode (st : ptr) (pcm : list Z) (frame_size max_data_bytes : Z)
    (s : state) : Z * list byte * state :=
  match encoders s !! st with
  | Some channels =>
      if (0 <? frame_size) && (frame_size <? 65536)
         && (frame_size * channels <=? Z.of_nat (length pcm))
      then
        if 3 <=? max_data_bytes
        then (3, [byte_of_Z frame_size; byte_of_Z (frame_size / 256);
                  byte_of_Z channels], s)
        else (OPUS_BUFFER_TOO_SMALL, [], s)
      else (OPUS_BAD_ARG, [], s)
  | None => (OPUS_BAD_ARG, [], s)
  end.

Definition decode (st : ptr) (data : list byte) (len frame_size decode_fec : Z)
    (s : state) : Z * list Z * state :=
  match decoders s !! st, data with
  | Some channels, lo :: hi :: ch :: _ =>
      let n := byte_val lo + 256 * byte_val hi in
      if (3 <=? len) && (byte_val ch =? channels)
      then
        if n <=? frame_size
        then (n, replicate (Z.to_nat (n * channels)) 0, s)
        else (OPUS_BUFFER_TOO_SMALL, [], s)
      else (OPUS_INVALID_PACKET, [], s)
  | Some _, _ => (OPUS_INVALID_PACKET, [], s)
  | None, _ => (OPUS_BAD_ARG, [], s)
  end.

#[export] Instance lib : OpusLib := {|
  OPUS_OK := OK;
  OPUS_SIGNAL_VOICE := 3001;
  lib_state := state;
  lib_encoder_create := encoder_create;
  lib_encoder_ctl := fun _ _ s => (OK, s);
  lib_decoder_create := decoder_create;
  lib_encode := encode;
  lib_decode := decode;
  lib_encoder_destroy := fun st s =>
    mkState (delete st (encoders s)) (decoders s);
  lib_decoder_destroy := fun st s =>
    mkState (encoders s) (delete st (decoders s));
  lib_strerror := fun _ => "error"%string;
  lib_get_version_string := "toy"%string
|}.

(** A world with one Java array, number 0, holding [bs]. *)
Definition world (bs : list byte) : World :=
  mkWorld (init : @lib_state lib) {[ 0%nat := bs ]} ∅ [] [] (fun _ => Byte.xaa).

Definition silence (n : nat) : list byte := replicate n Byte.x00.

(** The world after a voice encoder and a decoder have been created at
    [sample_rate] and [channels]: the encoder is token 1, the decoder 2. *)
Definition sessions (sample_rate channels : Z) (bs : list byte) : World :=
  final_world
    (run_ops [InitEncoder sample_rate channels 2048 16000 5 false true;
              InitDecoder sample_rate channels] [] (world bs)).

(** A packet of 1920 samples (40 ms at 48 kHz) for one channel. *)
Definition long_packet : list byte := [Byte.x80; Byte.x07; Byte.x01].

End Toy.

(** Short names for the entry points. *)
Abbreviation nativeInitEncoder :=
  Java_com_bitchat_android_audio_OpusCodec_nativeInitEncoder.
Abbreviation nativeInitDecoder :=
  Java_com_bitchat_android_audio_OpusCodec_nativeInitDecoder.
Abbreviation nativeEncode :=
  Java_com_bitchat_android_audio_OpusCodec_nativeEncode.
Abbreviation nativeDecode :=
  Java_com_bitchat_android_audio_OpusCodec_nativeDecode.
Abbreviation nativeGetVersion :=
  Java_com_bitchat_android_audio_OpusCodec_nativeGetVersion.
Abbreviation nativeReleaseEncoder :=
  Java_com_bitchat_android_audio_OpusCodec_nativeReleaseEncoder.
Abbreviation nativeReleaseDecoder :=
  Java_com_bitchat_android_audio_OpusCodec_nativeReleaseDecoder.

(** * Properties *)

(** ** Bytes and samples *)

Lemma length_shorts_to_bytes (ss : list Z) :
  length (shorts_to_bytes ss) = (2 * length ss)%nat.
Proof.
  unfold shorts_to_bytes.
  induction ss as [|s ss IH]; [done|].
  cbn [flat_map length short_to_bytes app]. rewrite IH. lia.
Qed.

Lemma wrap32_small (z : Z) : -2147483648 <= z < 2147483648 -> wrap32 z = z.
Proof. intros H. unfold wrap32. rewrite Z.mod_small; lia. Qed.

(** ** Fresh addresses *)

Lemma fresh_None {A} (m : gmap nat A) : m !! fresh (dom m) = None.
Proof. apply not_elem_of_dom, is_fresh. Qed.

Lemma fresh_insert_ne {A} (m : gmap nat A) (a : nat) (x : A) :
  fresh (dom (<[a := x]> m)) ≠ a.
Proof.
  intros E. pose proof (fresh_None (<[a := x]> m)) as H.
  rewrite E in H. by rewrite lookup_insert_eq in H.
Qed.

Lemma fresh_insert_None {A} (m : gmap nat A) (a : nat) (x : A) :
  m !! fresh (dom (<[a := x]> m)) = None.
Proof.
  pose proof (fresh_None (<[a := x]> m)) as H.
  by rewrite lookup_insert_ne in H by (apply not_eq_sym, fresh_insert_ne).
Qed.

Lemma fresh_ne_Some {A} (m : gmap nat A) (r : nat) (x : A) :
  m !! r = Some x -> r ≠ fresh (dom m).
Proof. intros H E. rewrite E, fresh_None in H. done. Qed.

(** The two blocks of a call, the array elements at [a1] and the scratch
    buffer at [a2], are gone once both are freed. *)
Lemma blocks_released {A} (m : gmap nat A) (a1 a2 : nat) (x y z : A) :
  m !! a1 = None -> m !! a2 = None ->
  delete a2 (delete a1 (<[a2 := z]> (<[a2 := y]> (<[a1 := x]> m)))) = m.
Proof.
  intros H1 H2. apply map_eq; intros i.
  destruct (decide (i = a2)) as [->|]; [by rewrite lookup_delete_eq|].
  rewrite lookup_delete_ne by done.
  destruct (decide (i = a1)) as [->|]; [by rewrite lookup_delete_eq|].
  rewrite lookup_delete_ne by done.
  by rewrite !lookup_insert_ne by done.
Qed.

Lemma length_fresh_block (f : nat -> byte) (n : nat) :
  length (map f (seq 0 n)) = n.
Proof. by rewrite length_map, length_seq. Qed.

(** ** Running the entry points *)

Ltac run :=
  cbn [nheap jheap lib calls logcat stale fst snd final_world
       with_nheap with_jheap with_lib with_calls with_logcat].

Ltac unfold_prims :=
  unfold GetByteArrayElements, GetArrayLength, ReleaseByteArrayElements,
    NewByteArray, SetByteArrayRegion, new_array, delete_array,
    opus_encode, opus_decode, opus_strerror, opus_encoder_create,
    opus_decoder_create, opus_encoder_ctl, opus_encoder_destroy,
    opus_decoder_destroy, opus_get_version_string, read_block, write_block,
    library, LOGE, LOGI, LOGD, log, mbind, M_bind, mret, M_ret.

Section Runs.

Context {L : OpusLib}.
Implicit Types (w : World) (h : jlong) (r : jref) (bs : list byte).

Lemma world_eq w1 w2 :
  lib w1 = lib w2 -> jheap w1 = jheap w2 -> nheap w1 = nheap w2 ->
  calls w1 = calls w2 -> logcat w1 = logcat w2 -> stale w1 = stale w2 ->
  w1 = w2.
Proof. destruct w1, w2. cbn. by intros -> -> -> -> -> ->. Qed.

Lemma returned_Some {A} (o : Outcome A) (a : A) :
  returned o = Some a -> o = Ok a (final_world o).
Proof. destruct o; [by intros [= ->] | done]. Qed.

Lemma length_scratch_image w (size : nat) (written : list byte) :
  (length written <= size)%nat -> length (scratch_image w size written) = size.
Proof.
  intros H. unfold scratch_image.
  rewrite length_app, length_drop, length_fresh_block. lia.
Qed.

(** With the sentinel the call stops at its first test. *)
Lemma nativeEncode_sentinel w (pcm_data : jbyteArray) (frame_size : jint) :
  nativeEncode 0 pcm_data frame_size w =
    Ok None (with_logcat
      (logcat w ++ [(ANDROID_LOG_ERROR, "Encoder not initialized"%string)]) w).
Proof. reflexivity. Qed.

Lemma nativeDecode_sentinel w (opus_data : jbyteArray) (frame_size : jint) :
  nativeDecode 0 opus_data frame_size w =
    Ok None (with_logcat
      (logcat w ++ [(ANDROID_LOG_ERROR, "Decoder not initialized"%string)]) w).
Proof. reflexivity. Qed.

(** [nativeEncode] from its entry to the library call, up to the test that
    the bytes the library wrote fit in the scratch buffer. *)
Ltac encode_prefix w out Hh Hr Hl :=
  rewrite (proj2 (Z.eqb_neq _ 0)) by done;
  unfold_prims; run; rewrite ?Hr; run; rewrite ?Hr; run;
  rewrite lookup_insert_ne by (apply fresh_insert_ne);
  rewrite lookup_insert_eq; run;
  rewrite Hl; run; rewrite lookup_insert_eq;
  change (Z.to_nat 1024) with 1024%nat;
  fold (scratch_image w 1024 out);
  rewrite length_fresh_block.

Lemma nativeEncode_failure w h r bs fs n out l' :
  h ≠ 0 -> jheap w !! r = Some bs ->
  lib_encode h (bytes_to_shorts bs) fs 1024 (lib w) = (n, out, l') ->
  (length out <= 1024)%nat -> n < 0 ->
  nativeEncode h (Some r) fs w =
    Ok None (mkWorld l' (jheap w) (nheap w)
      ((calls w ++ [CallEncode h (bytes_to_shorts bs) fs 1024])
        ++ [CallStrerror n])
      (logcat w ++ [(ANDROID_LOG_ERROR, "Opus encoding failed: %s"%string)])
      (stale w)).
Proof.
  intros Hh Hr Hl Ho Hn.
  pose proof (fresh_insert_ne (nheap w) (fresh (dom (nheap w))) bs) as Hne.
  unfold nativeEncode. encode_prefix w out Hh Hr Hl.
  destruct (decide _) as [_|Hbad]; [|lia]. run.
  rewrite !lookup_insert_ne by done.
  rewrite lookup_insert_eq. run.
  rewrite (proj2 (Z.ltb_lt n 0)) by done. run.
  rewrite lookup_delete_ne by done. rewrite lookup_insert_eq.
  f_equal. apply world_eq; run; try done.
  apply blocks_released; [apply fresh_None | apply fresh_insert_None].
Qed.

Lemma nativeEncode_success w h r bs fs n out l' :
  h ≠ 0 -> jheap w !! r = Some bs ->
  lib_encode h (bytes_to_shorts bs) fs 1024 (lib w) = (n, out, l') ->
  (length out <= 1024)%nat -> 0 <= n <= 1024 ->
  nativeEncode h (Some r) fs w =
    Ok (Some (fresh (dom (jheap w))))
       (mkWorld l'
          (<[fresh (dom (jheap w)) :=
               take (Z.to_nat n) (scratch_image w 1024 out)]> (jheap w))
          (nheap w)
          (calls w ++ [CallEncode h (bytes_to_shorts bs) fs 1024])
          (logcat w ++ [(ANDROID_LOG_DEBUG,
             "Encoded %d samples -> %d bytes (%.1f%% compression)"%string)])
          (stale w)).
Proof.
  intros Hh Hr Hl Ho Hn.
  pose proof (fresh_insert_ne (nheap w) (fresh (dom (nheap w))) bs) as Hne.
  unfold nativeEncode. encode_prefix w out Hh Hr Hl.
  destruct (decide _) as [_|Hbad]; [|lia]. run.
  rewrite !lookup_insert_ne by done.
  rewrite lookup_insert_eq. run.
  rewrite (proj2 (Z.ltb_ge n 0)) by lia. run.
  rewrite lookup_delete_ne by done. rewrite !lookup_insert_eq.
  rewrite length_replicate, length_scratch_image by done.
  destruct (decide _) as [_|Hbad]; [|lia]. run.
  rewrite lookup_delete_ne by done. rewrite lookup_insert_eq.
  f_equal. apply world_eq; run; try done.
  - rewrite insert_insert_eq. f_equal. cbn [Z.to_nat take app].
    rewrite Z.add_0_l, drop_ge by (rewrite length_replicate; lia).
    apply app_nil_r.
  - apply blocks_released; [apply fresh_None | apply fresh_insert_None].
Qed.


(** The same for [nativeDecode]. *)
Ltac decode_prefix w out Hh Hr Hl :=
  rewrite (proj2 (Z.eqb_neq _ 0)) by done;
  unfold_prims; run; rewrite ?Hr; run; rewrite ?Hr; run;
  rewrite lookup_insert_ne by (apply fresh_insert_ne);
  rewrite lookup_insert_eq; run;
  rewrite Hl; run; rewrite lookup_insert_eq;
  change (Z.to_nat (2 * 1024)) with 2048%nat;
  fold (scratch_image w 2048 (shorts_to_bytes out));
  rewrite length_fresh_block.

Lemma nativeDecode_failure w h r bs fs n out l' :
  h ≠ 0 -> jheap w !! r = Some bs ->
  lib_decode h bs (Z.of_nat (length bs)) fs 0 (lib w) = (n, out, l') ->
  (length out <= 1024)%nat -> n < 0 ->
  nativeDecode h (Some r) fs w =
    Ok None (mkWorld l' (jheap w) (nheap w)
      ((calls w ++ [CallDecode h bs (Z.of_nat (length bs)) fs 0])
        ++ [CallStrerror n])
      (logcat w ++ [(ANDROID_LOG_ERROR, "Opus decoding failed: %s"%string)])
      (stale w)).
Proof.
  intros Hh Hr Hl Ho Hn.
  pose proof (fresh_insert_ne (nheap w) (fresh (dom (nheap w))) bs) as Hne.
  unfold nativeDecode. decode_prefix w out Hh Hr Hl.
  destruct (decide _) as [_|Hbad];
    [|rewrite length_shorts_to_bytes in Hbad; lia]. run.
  rewrite !lookup_insert_ne by done.
  rewrite lookup_insert_eq. run.
  rewrite (proj2 (Z.ltb_lt n 0)) by done. run.
  rewrite lookup_delete_ne by done. rewrite lookup_insert_eq.
  f_equal. apply world_eq; run; try done.
  apply blocks_released; [apply fresh_None | apply fresh_insert_None].
Qed.

Lemma nativeDecode_success w h r bs fs n out l' :
  h ≠ 0 -> jheap w !! r = Some bs ->
  lib_decode h bs (Z.of_nat (length bs)) fs 0 (lib w) = (n, out, l') ->
  (length out <= 1024)%nat -> 0 <= n <= 1024 ->
  nativeDecode h (Some r) fs w =
    Ok (Some (fresh (dom (jheap w))))
       (mkWorld l'
          (<[fresh (dom (jheap w)) :=
               take (Z.to_nat (n * 2))
                    (scratch_image w 2048 (shorts_to_bytes out))]> (jheap w))
          (nheap w)
          (calls w ++ [CallDecode h bs (Z.of_nat (length bs)) fs 0])
          (logcat w ++ [(ANDROID_LOG_DEBUG,
             "Decoded %d bytes -> %d samples"%string)])
          (stale w)).
Proof.
  intros Hh Hr Hl Ho Hn.
  pose proof (fresh_insert_ne (nheap w) (fresh (dom (nheap w))) bs) as Hne.
  unfold nativeDecode. decode_prefix w out Hh Hr Hl.
  destruct (decide _) as [_|Hbad];
    [|rewrite length_shorts_to_bytes in Hbad; lia]. run.
  rewrite !lookup_insert_ne by done.
  rewrite lookup_insert_eq. run.
  rewrite (proj2 (Z.ltb_ge n 0)) by lia. run.
  rewrite wrap32_small by lia.
  rewrite (proj2 (Z.ltb_ge (n * 2) 0)) by lia. run.
  rewrite lookup_delete_ne by done. rewrite !lookup_insert_eq.
  rewrite length_replicate, length_scratch_image
    by (rewrite length_shorts_to_bytes; lia).
  destruct (decide _) as [_|Hbad]; [|lia]. run.
  rewrite lookup_delete_ne by done. rewrite lookup_insert_eq.
  f_equal. apply world_eq; run; try done.
  - rewrite insert_insert_eq. f_equal. cbn [Z.to_nat take app].
    rewrite Z.add_0_l, drop_ge by (rewrite length_replicate; lia).
    apply app_nil_r.
  - apply blocks_released; [apply fresh_None | apply fresh_insert_None].
Qed.

(** When the library writes more samples than the scratch buffer holds, the
    call ends at that write. *)
Lemma nativeDecode_overrun w h r bs fs n out l' :
  h ≠ 0 -> jheap w !! r = Some bs ->
  lib_decode h bs (Z.of_nat (length bs)) fs 0 (lib w) = (n, out, l') ->
  (1024 < length out)%nat ->
  exists w', nativeDecode h (Some r) fs w = Fault w' /\
    calls w' = calls w ++ [CallDecode h bs (Z.of_nat (length bs)) fs 0].
Proof.
  intros Hh Hr Hl Ho.
  unfold nativeDecode. decode_prefix w out Hh Hr Hl.
  destruct (decide _) as [Hbad|_];
    [rewrite length_shorts_to_bytes in Hbad; lia|]. run.
  eexists. split; [reflexivity|]. done.
Qed.

(** *** Creation and release *)

Lemma rejected_test error st :
  rejected error st -> negb (error =? OPUS_OK) || (st =? 0) = true.
Proof.
  intros [H|H]; apply orb_true_iff; [left|right].
  - by apply negb_true_iff, Z.eqb_neq.
  - by apply Z.eqb_eq.
Qed.

Lemma accepted_test error st :
  accepted error st -> negb (error =? OPUS_OK) || (st =? 0) = false.
Proof.
  intros [H1 H2]. apply orb_false_iff. split.
  - by apply negb_false_iff, Z.eqb_eq.
  - by apply Z.eqb_neq.
Qed.

Lemma nativeInitEncoder_rejected w sr ch app br cx vbr dtx error st l' :
  lib_encoder_create sr ch app (lib w) = (error, st, l') ->
  rejected error st ->
  exists w', nativeInitEncoder sr ch app br cx vbr dtx w = Ok 0 w' /\
    lib w' = l' /\ jheap w' = jheap w /\ nheap w' = nheap w /\
    calls w' = calls w ++ [CallEncoderCreate sr ch app; CallStrerror error].
Proof.
  intros Hl Hrej. unfold nativeInitEncoder. unfold_prims. run.
  rewrite Hl. run. rewrite (rejected_test _ _ Hrej). run.
  eexists. split; [reflexivity|]. run.
  by rewrite <- app_assoc.
Qed.

Lemma nativeInitEncoder_accepted w sr ch app br cx vbr dtx error st l' :
  lib_encoder_create sr ch app (lib w) = (error, st, l') ->
  accepted error st ->
  exists w', nativeInitEncoder sr ch app br cx vbr dtx w = Ok st w' /\
    lib w' = apply_ctls st (encoder_requests br cx vbr dtx) l' /\
    jheap w' = jheap w /\ nheap w' = nheap w /\
    calls w' = calls w ++ CallEncoderCreate sr ch app
                 :: map (CallEncoderCtl st) (encoder_requests br cx vbr dtx).
Proof.
  intros Hl Hacc. unfold nativeInitEncoder. unfold_prims. run.
  rewrite Hl. run. rewrite (accepted_test _ _ Hacc). run.
  eexists. split; [reflexivity|]. run.
  repeat split; try done.
  cbn [encoder_requests map]. by rewrite <- !app_assoc.
Qed.

Lemma nativeInitDecoder_rejected w sr ch error st l' :
  lib_decoder_create sr ch (lib w) = (error, st, l') ->
  rejected error st ->
  exists w', nativeInitDecoder sr ch w = Ok 0 w' /\
    lib w' = l' /\ jheap w' = jheap w /\ nheap w' = nheap w /\
    calls w' = calls w ++ [CallDecoderCreate sr ch; CallStrerror error].
Proof.
  intros Hl Hrej. unfold nativeInitDecoder. unfold_prims. run.
  rewrite Hl. run. rewrite (rejected_test _ _ Hrej). run.
  eexists. split; [reflexivity|]. run.
  by rewrite <- app_assoc.
Qed.

Lemma nativeInitDecoder_accepted w sr ch error st l' :
  lib_decoder_create sr ch (lib w) = (error, st, l') ->
  accepted error st ->
  exists w', nativeInitDecoder sr ch w = Ok st w' /\
    lib w' = l' /\ jheap w' = jheap w /\ nheap w' = nheap w /\
    calls w' = calls w ++ [CallDecoderCreate sr ch].
Proof.
  intros Hl Hacc. unfold nativeInitDecoder. unfold_prims. run.
  rewrite Hl. run. rewrite (accepted_test _ _ Hacc). run.
  eexists. split; [reflexivity|]. run. done.
Qed.

Lemma nativeReleaseEncoder_nonzero w h :
  h ≠ 0 ->
  nativeReleaseEncoder h w =
    Ok tt (mkWorld (lib_encoder_destroy h (lib w)) (jheap w) (nheap w)
             (calls w ++ [CallEncoderDestroy h])
             (logcat w ++ [(ANDROID_LOG_INFO, "Opus encoder released"%string)])
             (stale w)).
Proof.
  intros Hh. unfold nativeReleaseEncoder.
  rewrite (proj2 (Z.eqb_neq h 0)) by done. reflexivity.
Qed.

Lemma nativeReleaseDecoder_nonzero w h :
  h ≠ 0 ->
  nativeReleaseDecoder h w =
    Ok tt (mkWorld (lib_decoder_destroy h (lib w)) (jheap w) (nheap w)
             (calls w ++ [CallDecoderDestroy h])
             (logcat w ++ [(ANDROID_LOG_INFO, "Opus decoder released"%string)])
             (stale w)).
Proof.
  intros Hh. unfold nativeReleaseDecoder.
  rewrite (proj2 (Z.eqb_neq h 0)) by done. reflexivity.
Qed.

End Runs.
(** ** The contract of the entry points *)

Section Contract.

Context {L : OpusLib}.
Implicit Types (w : World) (h : jlong) (r : jref) (bs : list byte).

(** C2. With token 0, [nativeEncode] and [nativeDecode] return the absent
    result ([nullptr]) and make no call into the library: the list of
    library calls and the library state are as before, and so are both
    heaps. *)
Theorem sentinel_token_rejected w (array : jbyteArray) (frame_size : jint) :
  (exists w', nativeEncode 0 array frame_size w = Ok None w' /\
     calls w' = calls w /\ lib w' = lib w /\
     jheap w' = jheap w /\ nheap w' = nheap w) /\
  (exists w', nativeDecode 0 array frame_size w = Ok None w' /\
     calls w' = calls w /\ lib w' = lib w /\
     jheap w' = jheap w /\ nheap w' = nheap w).
Proof.
  split.
  - rewrite nativeEncode_sentinel. by eexists.
  - rewrite nativeDecode_sentinel. by eexists.
Qed.

(** C7. Releasing the sentinel token 0 changes nothing at all and does not
    fail; releasing a nonzero token makes exactly one library call, the
    destruction of that instance, before it returns. *)
Theorem release_contract w h (Hh : h ≠ 0) :
  nativeReleaseEncoder 0 w = Ok tt w /\
  nativeReleaseDecoder 0 w = Ok tt w /\
  (exists w', nativeReleaseEncoder h w = Ok tt w' /\
     lib w' = lib_encoder_destroy h (lib w) /\
     calls w' = calls w ++ [CallEncoderDestroy h]) /\
  (exists w', nativeReleaseDecoder h w = Ok tt w' /\
     lib w' = lib_decoder_destroy h (lib w) /\
     calls w' = calls w ++ [CallDecoderDestroy h]).
Proof.
  split; [reflexivity|]. split; [reflexivity|]. split.
  - rewrite nativeReleaseEncoder_nonzero by done. by eexists.
  - rewrite nativeReleaseDecoder_nonzero by done. by eexists.
Qed.

(** C5. Whatever the library answers to the creation call, the entry point
    returns normally.  When the answer is rejected (an error code, or no
    instance) it returns the sentinel 0, and the encoder gets no request.
    When it is accepted, [nativeInitEncoder] returns the instance as a
    nonzero token after exactly the six requests of [encoder_requests], in
    that order, and [nativeInitDecoder] returns it after no further call. *)
Theorem create_contract
    w (sample_rate channels application bitrate complexity : jint)
    (vbr dtx : jboolean) error st l' error_d st_d l_d
    (Henc : lib_encoder_create sample_rate channels application (lib w)
            = (error, st, l'))
    (Hdec : lib_decoder_create sample_rate channels (lib w)
            = (error_d, st_d, l_d)) :
  (rejected error st ->
     exists w', nativeInitEncoder sample_rate channels application bitrate
                  complexity vbr dtx w = Ok 0 w' /\
       lib w' = l' /\
       calls w' = calls w ++ [CallEncoderCreate sample_rate channels application;
                              CallStrerror error]) /\
  (accepted error st ->
     exists w', nativeInitEncoder sample_rate channels application bitrate
                  complexity vbr dtx w = Ok st w' /\
       st ≠ 0 /\
       lib w' = apply_ctls st
                  [OPUS_SET_BITRATE bitrate; OPUS_SET_COMPLEXITY complexity;
                   OPUS_SET_VBR (if vbr then 1 else 0);
                   OPUS_SET_DTX (if dtx then 1 else 0);
                   OPUS_SET_SIGNAL OPUS_SIGNAL_VOICE; OPUS_SET_LSB_DEPTH 16] l' /\
       calls w' = calls w ++
         [CallEncoderCreate sample_rate channels application;
          CallEncoderCtl st (OPUS_SET_BITRATE bitrate);
          CallEncoderCtl st (OPUS_SET_COMPLEXITY complexity);
          CallEncoderCtl st (OPUS_SET_VBR (if vbr then 1 else 0));
          CallEncoderCtl st (OPUS_SET_DTX (if dtx then 1 else 0));
          CallEncoderCtl st (OPUS_SET_SIGNAL OPUS_SIGNAL_VOICE);
          CallEncoderCtl st (OPUS_SET_LSB_DEPTH 16)]) /\
  (rejected error_d st_d ->
     exists w', nativeInitDecoder sample_rate channels w = Ok 0 w' /\
       lib w' = l_d /\
       calls w' = calls w ++ [CallDecoderCreate sample_rate channels;
                              CallStrerror error_d]) /\
  (accepted error_d st_d ->
     exists w', nativeInitDecoder sample_rate channels w = Ok st_d w' /\
       st_d ≠ 0 /\ lib w' = l_d /\
       calls w' = calls w ++ [CallDecoderCreate sample_rate channels]).
Proof.
  repeat split.
  - intros Hrej.
    destruct (nativeInitEncoder_rejected w _ _ _ bitrate complexity vbr dtx
                _ _ _ Henc Hrej) as (w' & -> & ? & _ & _ & ?).
    by exists w'.
  - intros Hacc.
    destruct (nativeInitEncoder_accepted w _ _ _ bitrate complexity vbr dtx
                _ _ _ Henc Hacc) as (w' & -> & ? & _ & _ & ?).
    exists w'. repeat split; try done. apply Hacc.
  - intros Hrej.
    destruct (nativeInitDecoder_rejected w _ _ _ _ _ Hdec Hrej)
      as (w' & -> & ? & _ & _ & ?).
    by exists w'.
  - intros Hacc.
    destruct (nativeInitDecoder_accepted w _ _ _ _ _ Hdec Hacc)
      as (w' & -> & ? & _ & _ & ?).
    exists w'. repeat split; try done. apply Hacc.
Qed.

(** C6. [nativeEncode] on a nonzero token, the library keeping within the
    1024 bytes it was given: a count [n >= 0] gives a new Java array of
    exactly [n] bytes, the first [n] bytes of the scratch buffer; a negative
    count gives [nullptr], and no Java array is created or changed. *)
Theorem encode_returns_reported_count
    w h r bs (frame_size : jint) n out l'
    (Hh : h ≠ 0) (Hr : jheap w !! r = Some bs)
    (Hl : lib_encode h (bytes_to_shorts bs) frame_size 1024 (lib w)
          = (n, out, l'))
    (Ho : (length out <= 1024)%nat) (Hn : n <= 1024) :
  (0 <= n ->
     exists r' res w',
       nativeEncode h (Some r) frame_size w = Ok (Some r') w' /\
       jheap w !! r' = None /\ jheap w' !! r' = Some res /\
       Z.of_nat (length res) = n /\
       res = take (Z.to_nat n) (scratch_image w 1024 out)) /\
  (n < 0 ->
     exists w', nativeEncode h (Some r) frame_size w = Ok None w' /\
       jheap w' = jheap w).
Proof.
  split; intros Hsign.
  - rewrite (nativeEncode_success w h r bs frame_size n out l') by (done || lia).
    eexists _, _, _. split; [reflexivity|]. run.
    split; [apply fresh_None|]. split; [apply lookup_insert_eq|].
    split; [|done].
    rewrite length_take, length_scratch_image by done. lia.
  - rewrite (nativeEncode_failure w h r bs frame_size n out l') by done.
    eexists. split; [reflexivity|]. done.
Qed.


End Contract.

(** ** What holds on every exit path *)

Section Paths.

Context {L : OpusLib}.
Implicit Types (w : World) (h : jlong) (r : jref) (bs : list byte).

(** Case analysis on the next test of a run: a block or array lookup, a
    bounds test, the sign test, the answer of the library. *)
Ltac branch :=
  match goal with
  | |- context [decide ?P] => destruct (decide P)
  | |- context [match ?m !! ?k with _ => _ end] => destruct (m !! k) eqn:?
  | |- context [?a <? ?b] => destruct (a <? b) eqn:?
  | |- context [lib_encode ?a ?b ?c ?d ?e] =>
      destruct (lib_encode a b c d e) as [[? ?] ?]
  | |- context [lib_decode ?a ?b ?c ?d ?e ?f] =>
      destruct (lib_decode a b c d e f) as [[? ?] ?]
  end; run.

Lemma jheap_final_nativeEncode w h (array : jbyteArray) fs r0 bs0 :
  jheap w !! r0 = Some bs0 ->
  jheap (final_world (nativeEncode h array fs w)) !! r0 = Some bs0.
Proof.
  intros Hr0. pose proof (fresh_ne_Some _ _ _ Hr0) as Hne.
  unfold nativeEncode. destruct (h =? 0); [done|].
  destruct array as [r|]; [|done].
  unfold_prims. run.
  repeat branch; try done;
    by rewrite ?lookup_insert_ne by (apply not_eq_sym, Hne).
Qed.

Lemma jheap_final_nativeDecode w h (array : jbyteArray) fs r0 bs0 :
  jheap w !! r0 = Some bs0 ->
  jheap (final_world (nativeDecode h array fs w)) !! r0 = Some bs0.
Proof.
  intros Hr0. pose proof (fresh_ne_Some _ _ _ Hr0) as Hne.
  unfold nativeDecode. destruct (h =? 0); [done|].
  destruct array as [r|]; [|done].
  unfold_prims. run.
  repeat branch; try done;
    by rewrite ?lookup_insert_ne by (apply not_eq_sym, Hne).
Qed.

(** C10. On every exit path of [nativeEncode] and [nativeDecode] (the
    sentinel, a fault, a library failure, success) every Java array that
    existed at the call, the input among them, holds the bytes it held. *)
Theorem input_array_unchanged w h (array : jbyteArray) (frame_size : jint)
    r0 bs0 (Hr0 : jheap w !! r0 = Some bs0) :
  jheap (final_world (nativeEncode h array frame_size w)) !! r0 = Some bs0 /\
  jheap (final_world (nativeDecode h array frame_size w)) !! r0 = Some bs0.
Proof.
  split; [by apply jheap_final_nativeEncode | by apply jheap_final_nativeDecode].
Qed.

Lemma calls_final_nativeEncode w h r bs fs :
  h ≠ 0 -> jheap w !! r = Some bs ->
  exists rest,
    calls (final_world (nativeEncode h (Some r) fs w)) =
      calls w ++ CallEncode h (bytes_to_shorts bs) fs 1024 :: rest.
Proof.
  intros Hh Hr. unfold nativeEncode.
  rewrite (proj2 (Z.eqb_neq _ 0)) by done.
  unfold_prims. run. rewrite ?Hr. run. rewrite ?Hr. run.
  rewrite lookup_insert_ne by (apply fresh_insert_ne).
  rewrite lookup_insert_eq. run.
  repeat branch; eexists; rewrite <- ?app_assoc; reflexivity.
Qed.

Lemma calls_final_nativeDecode w h r bs fs :
  h ≠ 0 -> jheap w !! r = Some bs ->
  exists rest,
    calls (final_world (nativeDecode h (Some r) fs w)) =
      calls w ++ CallDecode h bs (Z.of_nat (length bs)) fs 0 :: rest.
Proof.
  intros Hh Hr. unfold nativeDecode.
  rewrite (proj2 (Z.eqb_neq _ 0)) by done.
  unfold_prims. run. rewrite ?Hr. run. rewrite ?Hr. run.
  rewrite lookup_insert_ne by (apply fresh_insert_ne).
  rewrite lookup_insert_eq. run.
  repeat branch; eexists; rewrite <- ?app_assoc; reflexivity.
Qed.

(** C8. For every nonzero token, live or not, and every input array and
    frame size, whatever their relation, the library call is made: it is
    the next library call of the run, on that token, with the caller's
    [frame_size] as it came. *)
Theorem only_the_sentinel_is_checked w h r bs (frame_size : jint)
    (Hh : h ≠ 0) (Hr : jheap w !! r = Some bs) :
  (exists rest,
     calls (final_world (nativeEncode h (Some r) frame_size w)) =
       calls w ++ CallEncode h (bytes_to_shorts bs) frame_size 1024 :: rest) /\
  (exists rest,
     calls (final_world (nativeDecode h (Some r) frame_size w)) =
       calls w ++
         CallDecode h bs (Z.of_nat (length bs)) frame_size 0 :: rest).
Proof.
  split; [by apply calls_final_nativeEncode | by apply calls_final_nativeDecode].
Qed.

End Paths.

(** ** The tokens of live sessions *)

Section Tokens.

Context {L : OpusLib}.
Context (live : lib_state -> gset ptr) (Hlive : DistinctInstances live).
Implicit Types (w : World) (h : jlong) (r : jref) (bs : list byte).

Lemma live_apply_ctls st requests l :
  live l ⊆ live (apply_ctls st requests l).
Proof.
  unfold apply_ctls. revert l.
  induction requests as [|request requests IH]; intros l; [done|].
  cbn [fold_left]. etrans; [apply (encoder_ctl_keeps _ Hlive st request)|].
  apply IH.
Qed.

Lemma keeps_live_ret {A} (a : A) : keeps_live live (mret a).
Proof. by intros w a' w' [= _ <-]. Qed.

Lemma keeps_live_bind {A B} (m : M A) (f : A -> M B) :
  keeps_live live m -> (forall a, keeps_live live (f a)) ->
  keeps_live live (m ≫= f).
Proof.
  intros Hm Hf w b w'. unfold mbind, M_bind.
  destruct (m w) as [a w1|] eqn:E; [|done].
  intros Hb. etrans; [by eapply Hm | by eapply Hf].
Qed.

Lemma keeps_live_library {A} c (f : lib_state -> A * lib_state) :
  (forall l, live l ⊆ live (f l).2) -> keeps_live live (library c f).
Proof. intros Hf w a w' [= _ <-]. apply Hf. Qed.

(** The steps that do not call the library leave its state alone. *)
Lemma keeps_live_silent {A} (m : M A) :
  (forall w a w', m w = Ok a w' -> lib w' = lib w) -> keeps_live live m.
Proof. intros Hm w a w' E. by rewrite (Hm _ _ _ E). Qed.

Ltac silent :=
  apply keeps_live_silent; intros ? ? ?;
  unfold GetByteArrayElements, GetArrayLength, ReleaseByteArrayElements,
    NewByteArray, SetByteArrayRegion, new_array, delete_array,
    read_block, write_block, LOGE, LOGI, LOGD, log;
  cbv beta; repeat case_match; by intros [= _ <-].

Ltac keeps :=
  repeat first
    [ apply keeps_live_ret
    | apply keeps_live_bind; [|intros ?]
    | match goal with |- keeps_live _ (if ?b then _ else _) => destruct b end
    | match goal with |- keeps_live _ (let '(_, _) := ?p in _) =>
        destruct p end
    | apply keeps_live_library; intros ?; cbn [snd];
      first [ done
            | apply (encoder_ctl_keeps _ Hlive)
            | apply (encode_keeps _ Hlive)
            | apply (decode_keeps _ Hlive) ]
    | silent ].

Lemma live_nativeEncode w h (array : jbyteArray) fs res w' :
  nativeEncode h array fs w = Ok res w' -> live (lib w) ⊆ live (lib w').
Proof.
  revert w res w'. change (keeps_live live (nativeEncode h array fs)).
  unfold nativeEncode, opus_encode, opus_strerror. keeps.
Qed.

Lemma live_nativeDecode w h (array : jbyteArray) fs res w' :
  nativeDecode h array fs w = Ok res w' -> live (lib w) ⊆ live (lib w').
Proof.
  revert w res w'. change (keeps_live live (nativeDecode h array fs)).
  unfold nativeDecode, opus_decode, opus_strerror. keeps.
Qed.

Lemma accepted_or_rejected error st : accepted error st \/ rejected error st.
Proof.
  unfold accepted, rejected.
  destruct (decide (error = OPUS_OK)), (decide (st = 0)); tauto.
Qed.

(** A creation returns the sentinel, or a nonzero token that is the address
    of an instance that was not live before and is live now. *)
Lemma live_nativeInitEncoder w sr ch app br cx vbr dtx t w' :
  nativeInitEncoder sr ch app br cx vbr dtx w = Ok t w' ->
  live (lib w) ⊆ live (lib w') /\
  (t ≠ 0 -> (t ∉ live (lib w)) /\ (t ∈ live (lib w'))).
Proof.
  destruct (lib_encoder_create sr ch app (lib w)) as [[error st] l'] eqn:E.
  destruct (encoder_create_fresh _ Hlive _ _ _ _ _ _ _ E) as [Hsub Hnew].
  destruct (accepted_or_rejected error st) as [Hacc|Hrej].
  - destruct (nativeInitEncoder_accepted w _ _ _ br cx vbr dtx _ _ _ E Hacc)
      as (w1 & -> & Hl & _). intros [= <- <-]. rewrite Hl.
    pose proof (live_apply_ctls st (encoder_requests br cx vbr dtx) l').
    destruct Hacc as [He Hst]. destruct (Hnew He Hst). set_solver.
  - destruct (nativeInitEncoder_rejected w _ _ _ br cx vbr dtx _ _ _ E Hrej)
      as (w1 & -> & Hl & _). intros [= <- <-]. rewrite Hl. done.
Qed.

Lemma live_nativeInitDecoder w sr ch t w' :
  nativeInitDecoder sr ch w = Ok t w' ->
  live (lib w) ⊆ live (lib w') /\
  (t ≠ 0 -> (t ∉ live (lib w)) /\ (t ∈ live (lib w'))).
Proof.
  destruct (lib_decoder_create sr ch (lib w)) as [[error st] l'] eqn:E.
  destruct (decoder_create_fresh _ Hlive _ _ _ _ _ _ E) as [Hsub Hnew].
  destruct (accepted_or_rejected error st) as [Hacc|Hrej].
  - destruct (nativeInitDecoder_accepted w _ _ _ _ _ E Hacc)
      as (w1 & -> & Hl & _). intros [= <- <-]. rewrite Hl.
    destruct Hacc as [He Hst]. destruct (Hnew He Hst). done.
  - destruct (nativeInitDecoder_rejected w _ _ _ _ _ E Hrej)
      as (w1 & -> & Hl & _). intros [= <- <-]. rewrite Hl. done.
Qed.

Lemma live_nativeReleaseEncoder w h w' :
  nativeReleaseEncoder h w = Ok tt w' ->
  live (lib w) ∖ {[h]} ⊆ live (lib w').
Proof.
  destruct (decide (h = 0)) as [->|Hh].
  - intros [= <-]. set_solver.
  - rewrite nativeReleaseEncoder_nonzero by done. intros [= <-]. run.
    apply (encoder_destroy_keeps _ Hlive).
Qed.

Lemma live_nativeReleaseDecoder w h w' :
  nativeReleaseDecoder h w = Ok tt w' ->
  live (lib w) ∖ {[h]} ⊆ live (lib w').
Proof.
  destruct (decide (h = 0)) as [->|Hh].
  - intros [= <-]. set_solver.
  - rewrite nativeReleaseDecoder_nonzero by done. intros [= <-]. run.
    apply (decoder_destroy_keeps _ Hlive).
Qed.

Lemma ledger_ok_mono tokens w w' :
  live (lib w) ⊆ live (lib w') -> ledger_ok live tokens w -> ledger_ok live tokens w'.
Proof. intros Hsub [Hnd Hin]. split; [done|]. intros t Ht. set_solver. Qed.

Lemma ledger_ok_created tokens w w' t :
  live (lib w) ⊆ live (lib w') ->
  (t ≠ 0 -> (t ∉ live (lib w)) /\ (t ∈ live (lib w'))) ->
  ledger_ok live tokens w ->
  ledger_ok live (if t =? 0 then tokens else t :: tokens) w'.
Proof.
  intros Hsub Hnew Hok. destruct (Z.eqb_spec t 0) as [|Ht].
  { by eapply ledger_ok_mono. }
  destruct Hok as [Hnd Hin]. destruct (Hnew Ht) as [Hfresh Hlive'].
  split.
  - apply NoDup_cons. split; [|done]. intros Ht'. by destruct (Hin t Ht').
  - intros t' [->|Ht']%elem_of_cons; [done|]. set_solver.
Qed.

Lemma ledger_ok_released tokens w w' h :
  live (lib w) ∖ {[h]} ⊆ live (lib w') ->
  ledger_ok live tokens w ->
  ledger_ok live (filter (fun t => t ≠ h) tokens) w'.
Proof.
  intros Hsub [Hnd Hin]. split; [by apply NoDup_filter|].
  intros t [Hne Ht]%list_elem_of_filter. destruct (Hin t Ht). set_solver.
Qed.

Lemma ledger_ok_run_op o tokens w tokens' w' :
  ledger_ok live tokens w -> run_op o tokens w = Ok tokens' w' ->
  ledger_ok live tokens' w'.
Proof.
  intros Hok. destruct o; cbn [run_op]; unfold mbind, M_bind, mret, M_ret.
  - destruct (nativeInitEncoder _ _ _ _ _ _ _ w) as [t w1|] eqn:E; [|done].
    intros [= <- <-]. destruct (live_nativeInitEncoder _ _ _ _ _ _ _ _ _ _ E).
    by eapply ledger_ok_created.
  - destruct (nativeInitDecoder _ _ w) as [t w1|] eqn:E; [|done].
    intros [= <- <-]. destruct (live_nativeInitDecoder _ _ _ _ _ E).
    by eapply ledger_ok_created.
  - destruct (nativeEncode _ _ _ w) as [res w1|] eqn:E; [|done].
    intros [= <- <-]. eapply ledger_ok_mono; [|done].
    by eapply live_nativeEncode.
  - destruct (nativeDecode _ _ _ w) as [res w1|] eqn:E; [|done].
    intros [= <- <-]. eapply ledger_ok_mono; [|done].
    by eapply live_nativeDecode.
  - intros [= <- <-]. done.
  - destruct (nativeReleaseEncoder _ w) as [[] w1|] eqn:E; [|done].
    intros [= <- <-]. eapply ledger_ok_released; [|done].
    by eapply live_nativeReleaseEncoder.
  - destruct (nativeReleaseDecoder _ w) as [[] w1|] eqn:E; [|done].
    intros [= <- <-]. eapply ledger_ok_released; [|done].
    by eapply live_nativeReleaseDecoder.
Qed.

Lemma ledger_ok_run_ops os tokens w tokens' w' :
  ledger_ok live tokens w -> run_ops os tokens w = Ok tokens' w' ->
  ledger_ok live tokens' w'.
Proof.
  revert tokens w. induction os as [|o os IH]; intros tokens w Hok.
  - intros [= <- <-]. done.
  - cbn [run_ops]. unfold mbind, M_bind.
    destruct (run_op o tokens w) as [tokens1 w1|] eqn:E; [|done].
    apply IH. by eapply ledger_ok_run_op.
Qed.


(** C9. After any history of calls that returned, the tokens of the sessions
    that are live are nonzero and pairwise distinct; and when the library
    then accepts the creation of an encoder and of a decoder, whatever their
    parameters, the two tokens returned are nonzero, differ from each other
    and from the token of every session that is live. *)
Theorem live_tokens_are_unique
    (os : list Op) (tokens : list jlong) w tokens'
    (Hok : ledger_ok live tokens w)
    (Hrun : returned (run_ops os tokens w) = Some tokens') :
  ledger_ok live tokens' (final_world (run_ops os tokens w)) /\
  forall sample_rate channels application bitrate complexity vbr dtx
         sample_rate_d channels_d error st l1,
    lib_encoder_create sample_rate channels application
      (lib (final_world (run_ops os tokens w))) = (error, st, l1) ->
    accepted error st ->
    exists w1,
      nativeInitEncoder sample_rate channels application bitrate complexity
        vbr dtx (final_world (run_ops os tokens w)) = Ok st w1 /\
      st ≠ 0 /\ (st ∉ tokens') /\
      forall error_d st_d l2,
        lib_decoder_create sample_rate_d channels_d (lib w1)
          = (error_d, st_d, l2) ->
        accepted error_d st_d ->
        exists w2,
          nativeInitDecoder sample_rate_d channels_d w1 = Ok st_d w2 /\
          st_d ≠ 0 /\ st_d ≠ st /\ (st_d ∉ tokens').
Proof.
  apply returned_Some in Hrun.
  generalize dependent (final_world (run_ops os tokens w)). intros w' Hrun.
  pose proof (ledger_ok_run_ops _ _ _ _ _ Hok Hrun) as Hok'.
  split; [done|].
  intros sr ch app br cx vbr dtx sr_d ch_d error st l1 E Hacc.
  destruct (nativeInitEncoder_accepted w' _ _ _ br cx vbr dtx _ _ _ E Hacc)
    as (w1 & Hrun1 & _).
  destruct (live_nativeInitEncoder _ _ _ _ _ _ _ _ _ _ Hrun1) as [Hsub Hnew].
  destruct Hacc as [_ Hst]. destruct (Hnew Hst) as [Hfresh Hin].
  destruct Hok' as [_ Hlist].
  exists w1. split; [done|]. split; [done|].
  split; [intros Ht; by destruct (Hlist _ Ht)|].
  intros error_d st_d l2 E_d Hacc_d.
  destruct (nativeInitDecoder_accepted w1 _ _ _ _ _ E_d Hacc_d)
    as (w2 & Hrun2 & _).
  destruct (live_nativeInitDecoder _ _ _ _ _ Hrun2) as [_ Hnew_d].
  destruct Hacc_d as [_ Hst_d]. destruct (Hnew_d Hst_d) as [Hfresh_d _].
  exists w2. split; [done|]. split; [done|]. split.
  - intros ->. done.
  - intros Ht. destruct (Hlist _ Ht). set_solver.
Qed.

End Tokens.
(** ** Within the library's bounds *)

Section Bounds.

Context {L : OpusLib}.
Implicit Types (w : World) (h : jlong) (r : jref) (bs : list byte).

(** Of a library that honours [max_data_bytes], [nativeEncode] never returns
    more than the 1024 bytes of its scratch buffer. *)
Lemma encode_within_ceiling w h r bs (frame_size : jint) n out l' :
  EncodeHonoursBound ->
  h ≠ 0 -> jheap w !! r = Some bs ->
  lib_encode h (bytes_to_shorts bs) frame_size 1024 (lib w) = (n, out, l') ->
  0 <= n ->
  exists r' res w',
    nativeEncode h (Some r) frame_size w = Ok (Some r') w' /\
    jheap w' !! r' = Some res /\ res = out /\
    Z.of_nat (length res) = n /\ n <= 1024.
Proof.
  intros Hbound Hh Hr Hl Hn.
  destruct (Hbound _ _ _ _ _ _ _ _ Hl) as [Hlen Hcount].
  specialize (Hcount Hn).
  rewrite (nativeEncode_success w h r bs frame_size n out l') by (done || lia).
  assert (take (Z.to_nat n) (scratch_image w 1024 out) = out) as ->.
  { unfold scratch_image. apply take_app_length'. lia. }
  eexists _, _, _. split; [reflexivity|]. run.
  split; [apply lookup_insert_eq|]. split; [done|]. lia.
Qed.

End Bounds.

(** ** The toy library keeps the promises of the interface *)

Lemma Toy_encode_honours_bound : @EncodeHonoursBound Toy.lib.
Proof.
  intros st pcm frame_size max_data_bytes l n out l'.
  cbn [lib_encode Toy.lib]. unfold Toy.encode.
  repeat case_match; intros [= <- <- <-]; cbn [length];
    unfold Toy.OPUS_BAD_ARG, Toy.OPUS_BUFFER_TOO_SMALL;
    repeat match goal with
           | H : (_ <=? _) = true |- _ => apply Z.leb_le in H
           end; lia.
Qed.

Lemma Toy_next_fresh (s : Toy.state) : Toy.next s ≠ 0 /\ Toy.next s ∉ Toy.live s.
Proof.
  pose proof (is_fresh ({[0]} ∪ Toy.live s)) as H.
  fold (Toy.next s) in H. set_solver.
Qed.

Lemma Toy_distinct_instances : @DistinctInstances Toy.lib Toy.live.
Proof.
  split.
  - intros Fs channels application l error st l'.
    cbn [lib_encoder_create Toy.lib]. unfold Toy.encoder_create.
    destruct (Toy_next_fresh l) as [_ Hfresh].
    case_match; intros [= <- <- <-]; [|done].
    unfold Toy.live in *. cbn [Toy.encoders Toy.decoders].
    rewrite dom_insert_L. set_solver.
  - intros Fs channels l error st l'.
    cbn [lib_decoder_create Toy.lib]. unfold Toy.decoder_create.
    destruct (Toy_next_fresh l) as [_ Hfresh].
    case_match; intros [= <- <- <-]; [|done].
    unfold Toy.live in *. cbn [Toy.encoders Toy.decoders].
    rewrite dom_insert_L. set_solver.
  - done.
  - intros st pcm frame_size max_data_bytes l.
    cbn [lib_encode Toy.lib]. unfold Toy.encode. by repeat case_match.
  - intros st data len frame_size decode_fec l.
    cbn [lib_decode Toy.lib]. unfold Toy.decode. by repeat case_match.
  - intros st l. cbn [lib_encoder_destroy Toy.lib]. unfold Toy.live.
    cbn [Toy.encoders Toy.decoders]. rewrite dom_delete_L. set_solver.
  - intros st l. cbn [lib_decoder_destroy Toy.lib]. unfold Toy.live.
    cbn [Toy.encoders Toy.decoders]. rewrite dom_delete_L. set_solver.
Qed.

(** ** The entry points on concrete inputs *)

(** C1 does not hold of the code for two channels.  A stereo encoder and
    decoder at 16 kHz and a silent frame of 160 samples per channel, 640
    bytes: [nativeEncode] hands the library the 320 interleaved samples with
    [frame_size] 160, the library reports 160 decoded samples (opus.h counts
    samples per channel), and [nativeDecode] returns [decoded_samples * 2] =
    320 bytes, the first half of the frame, where the claim has
    160 * 2 * 2 = 640. *)
Theorem round_trip_stereo_length :
  returned_length
    (round_trip (L := Toy.lib) 16000 2 2048 16000 5 false true (Some 0%nat) 160
       (Toy.world (Toy.silence 640))) = Some 320 /\
  returned_length
    (round_trip (L := Toy.lib) 16000 2 2048 16000 5 false true (Some 0%nat) 160
       (Toy.world (Toy.silence 640))) ≠ Some (160 * 2 * 2) /\
  drop 8 (calls (final_world
    (round_trip (L := Toy.lib) 16000 2 2048 16000 5 false true (Some 0%nat) 160
       (Toy.world (Toy.silence 640)))))
  = [CallEncode 1 (replicate 320 0) 160 1024;
     CallDecode 2 [Byte.xa0; Byte.x00; Byte.x02] 3 160 0].
Proof.
  assert (returned_length
    (round_trip (L := Toy.lib) 16000 2 2048 16000 5 false true (Some 0%nat) 160
       (Toy.world (Toy.silence 640))) = Some 320) as ->
    by (vm_compute; reflexivity).
  split; [reflexivity|]. split; [discriminate|].
  vm_compute; reflexivity.
Qed.

(** C3, the decoding half, fails.  A mono decoder at 48 kHz, a packet of
    1920 samples and [frame_size] 1920: the bound passed to [opus_decode] is
    the caller's 1920, not the 1024 samples of the scratch buffer; the
    library, within the bound it was given, writes 1920 samples, and the
    call ends at that write, past the end of the buffer. *)
Theorem decode_overruns_scratch :
  exists out l' w',
    lib_decode 2 Toy.long_packet 3 1920 0
      (lib (Toy.sessions 48000 1 Toy.long_packet)) = (1920, out, l') /\
    length out = 1920%nat /\
    nativeDecode (L := Toy.lib) 2 (Some 0%nat) 1920
      (Toy.sessions 48000 1 Toy.long_packet) = Fault w' /\
    calls w' = calls (Toy.sessions 48000 1 Toy.long_packet)
                 ++ [CallDecode 2 Toy.long_packet 3 1920 0].
Proof.
  assert (lib_decode 2 Toy.long_packet 3 1920 0
            (lib (Toy.sessions 48000 1 Toy.long_packet))
          = (1920, replicate 1920 0, Toy.mkState {[1 := 1]} {[2 := 1]})) as Hl
    by (vm_compute; reflexivity).
  destruct (nativeDecode_overrun (L := Toy.lib)
              (Toy.sessions 48000 1 Toy.long_packet) 2 0%nat Toy.long_packet
              1920 _ _ _ ltac:(discriminate) ltac:(vm_compute; reflexivity) Hl)
    as (w' & Hrun & Hcalls).
  { rewrite length_replicate. lia. }
  eexists _, _, w'. split; [exact Hl|]. split; [apply length_replicate|].
  split; [exact Hrun | exact Hcalls].
Qed.

Lemma release_contract_witness :
  exists w',
    nativeReleaseEncoder (L := Toy.lib) 1 (Toy.sessions 16000 1 []) = Ok tt w' /\
    calls w' = calls (Toy.sessions 16000 1 []) ++ [CallEncoderDestroy 1].
Proof.
  destruct (release_contract (L := Toy.lib) (Toy.sessions 16000 1 []) 1)
    as (_ & _ & (w' & Hrun & _ & Hcalls) & _); [lia|].
  exists w'. split; [exact Hrun | exact Hcalls].
Defined.

Lemma create_contract_witness :
  exists w',
    nativeInitEncoder (L := Toy.lib) 16000 1 2048 16000 5 false true
      (Toy.world []) = Ok 1 w' /\ 1 ≠ 0.
Proof.
  destruct (create_contract (L := Toy.lib) (Toy.world [])
              16000 1 2048 16000 5 false true
              0 1 (Toy.mkState {[1 := 1]} ∅) 0 1 (Toy.mkState ∅ {[1 := 1]}))
    as (_ & Hacc & _ & _);
    [vm_compute; reflexivity | vm_compute; reflexivity |].
  destruct Hacc as (w' & Hrun & Hnz & _); [split; [reflexivity | lia]|].
  exists w'. split; [exact Hrun | exact Hnz].
Defined.

Lemma encode_returns_reported_count_witness :
  exists r' res w',
    nativeEncode (L := Toy.lib) 1 (Some 0%nat) 160
      (Toy.sessions 16000 1 (Toy.silence 320)) = Ok (Some r') w' /\
    jheap w' !! r' = Some res /\ Z.of_nat (length res) = 3.
Proof.
  destruct (encode_returns_reported_count (L := Toy.lib)
              (Toy.sessions 16000 1 (Toy.silence 320)) 1 0%nat
              (Toy.silence 320) 160 3 [Byte.xa0; Byte.x00; Byte.x01]
              (Toy.mkState {[1 := 1]} {[2 := 1]})) as [Hpos _];
    [lia | vm_compute; reflexivity | vm_compute; reflexivity
    | vm_compute; lia | lia |].
  destruct Hpos as (r' & res & w' & Hrun & _ & Hres & Hlen & _); [lia|].
  exists r', res, w'. split; [exact Hrun|]. split; [exact Hres | exact Hlen].
Defined.


Lemma only_the_sentinel_is_checked_witness :
  exists rest,
    calls (final_world
             (nativeDecode (L := Toy.lib) 77 (Some 0%nat) 5000
                (Toy.world Toy.long_packet))) =
      calls (Toy.world Toy.long_packet)
        ++ CallDecode 77 Toy.long_packet 3 5000 0 :: rest.
Proof.
  destruct (only_the_sentinel_is_checked (L := Toy.lib)
              (Toy.world Toy.long_packet) 77 0%nat Toy.long_packet 5000)
    as [_ Hdec]; [lia | vm_compute; reflexivity |].
  exact Hdec.
Defined.

Lemma input_array_unchanged_witness :
  jheap (final_world
           (nativeEncode (L := Toy.lib) 1 (Some 0%nat) 160
              (Toy.sessions 16000 1 (Toy.silence 320)))) !! 0%nat
    = Some (Toy.silence 320).
Proof.
  destruct (input_array_unchanged (L := Toy.lib)
              (Toy.sessions 16000 1 (Toy.silence 320)) 1 (Some 0%nat) 160
              0%nat (Toy.silence 320)) as [Henc _];
    [vm_compute; reflexivity|].
  exact Henc.
Defined.

Lemma live_tokens_are_unique_witness :
  ledger_ok (L := Toy.lib) Toy.live [3; 2]
    (final_world
       (run_ops (L := Toy.lib)
          [InitEncoder 16000 1 2048 16000 5 false true; InitDecoder 16000 1;
           InitDecoder 99 1; ReleaseEncoder 1;
           InitEncoder 16000 1 2048 16000 5 false true]
          [] (Toy.world []))).
Proof.
  apply (live_tokens_are_unique (L := Toy.lib) Toy.live Toy_distinct_instances).
  - split; [constructor|]. intros t Ht. inversion Ht.
  - vm_compute; reflexivity.
Defined.

(** * Further properties of the entry points *)

(** ** The casts between bytes and samples *)

Lemma byte_val_bounded (b : byte) : 0 <= byte_val b < 256.
Proof.
  unfold byte_val. pose proof (Byte.to_N_bounded b) as H. lia.
Qed.

Lemma byte_val_of_Z (z : Z) : byte_val (byte_of_Z z) = z mod 256.
Proof.
  unfold byte_of_Z, byte_val.
  pose proof (Z.mod_pos_bound z 256 ltac:(lia)) as Hz.
  destruct (Byte.of_N (Z.to_N (z mod 256))) as [b|] eqn:E.
  - change (default Byte.x00 (Some b)) with b.
    apply Byte.to_of_N in E. rewrite E. lia.
  - apply Byte.of_N_None_iff in E. lia.
Qed.

Lemma byte_of_Z_val (b : byte) : byte_of_Z (byte_val b) = b.
Proof.
  unfold byte_of_Z. pose proof (byte_val_bounded b) as Hb.
  rewrite Z.mod_small by done. unfold byte_val.
  by rewrite N2Z.id, Byte.of_to_N.
Qed.

Lemma byte_of_Z_mod (z : Z) : byte_of_Z (z mod 256) = byte_of_Z z.
Proof. unfold byte_of_Z. by rewrite Z.mod_mod. Qed.

Lemma sample_of_bytes (s : Z) :
  -32768 <= s < 32768 ->
  sint16 (byte_val (byte_of_Z s)
          + 256 * byte_val (byte_of_Z ((s mod 65536) / 256))) = s.
Proof.
  intros Hs. rewrite !byte_val_of_Z. unfold sint16.
  Z.div_mod_to_equations. lia.
Qed.

Lemma bytes_of_sample (lo hi : byte) :
  short_to_bytes (sint16 (byte_val lo + 256 * byte_val hi)) = [lo; hi].
Proof.
  pose proof (byte_val_bounded lo) as Hlo.
  pose proof (byte_val_bounded hi) as Hhi.
  unfold short_to_bytes.
  rewrite <- (byte_of_Z_mod (sint16 _)), <- (byte_of_Z_mod (_ / 256)).
  assert (sint16 (byte_val lo + 256 * byte_val hi) mod 256 = byte_val lo)
    as -> by (unfold sint16; Z.div_mod_to_equations; lia).
  assert ((sint16 (byte_val lo + 256 * byte_val hi) mod 65536 / 256) mod 256
          = byte_val hi)
    as -> by (unfold sint16; Z.div_mod_to_equations; lia).
  by rewrite !byte_of_Z_val.
Qed.

(** X1. The two casts undo each other: samples that fit in 16 bits, stored
    as bytes and read back as [int16_t], are the same samples; and a byte
    array of even length, read as samples and stored back, is the same
    bytes. *)
Theorem casts_round_trip (ss : list Z) (bs : list byte)
    (Hss : Forall (fun s => -32768 <= s < 32768) ss)
    (Hbs : Nat.Even (length bs)) :
  bytes_to_shorts (shorts_to_bytes ss) = ss /\
  shorts_to_bytes (bytes_to_shorts bs) = bs.
Proof.
  split.
  - induction Hss as [|s ss Hs _ IH]; [done|].
    change (shorts_to_bytes (s :: ss))
      with (byte_of_Z s :: byte_of_Z ((s mod 65536) / 256)
              :: shorts_to_bytes ss).
    cbn [bytes_to_shorts]. by rewrite sample_of_bytes, IH.
  - destruct Hbs as [k Hk]. revert bs Hk.
    induction k as [|k IH]; intros bs Hk.
    + by destruct bs.
    + destruct bs as [|lo [|hi bs]]; cbn [length] in Hk; try lia.
      cbn [bytes_to_shorts].
      change (shorts_to_bytes (?s :: ?l))
        with (short_to_bytes s ++ shorts_to_bytes l).
      rewrite bytes_of_sample, IH by lia. done.
Qed.

Lemma casts_round_trip_witness :
  bytes_to_shorts (shorts_to_bytes [-32768; -1; 0; 255; 256; 32767])
    = [-32768; -1; 0; 255; 256; 32767] /\
  shorts_to_bytes (bytes_to_shorts [Byte.xff; Byte.x7f; Byte.x00; Byte.x80])
    = [Byte.xff; Byte.x7f; Byte.x00; Byte.x80].
Proof.
  apply casts_round_trip.
  - repeat constructor; lia.
  - exists 2%nat. reflexivity.
Defined.

Lemma take_shorts_to_bytes (k : nat) (ss : list Z) :
  take (2 * k) (shorts_to_bytes ss) = shorts_to_bytes (take k ss).
Proof.
  revert ss. induction k as [|k IH]; intros ss; [done|].
  destruct ss as [|s ss]; [done|].
  replace (2 * S k)%nat with (S (S (2 * k))) by lia.
  change (shorts_to_bytes (s :: ss))
    with (byte_of_Z s :: byte_of_Z ((s mod 65536) / 256) :: shorts_to_bytes ss).
  cbn [take]. rewrite IH. reflexivity.
Qed.

(** ** Results and diagnostics of the two transforms *)

Section Transforms.

Context {L : OpusLib}.
Implicit Types (w : World) (h : jlong) (r : jref) (bs : list byte).

(** X2. [nativeDecode] on a nonzero token, the library writing at most 1024
    samples.  A count [0 <= n <= 1024] gives a new Java array of exactly
    [2 * n] bytes; a negative count gives [nullptr], no Java array is
    created or changed, and both native blocks are freed. *)
Theorem decode_returns_reported_count
    w h r bs (frame_size : jint) n out l'
    (Hh : h ≠ 0) (Hr : jheap w !! r = Some bs)
    (Hl : lib_decode h bs (Z.of_nat (length bs)) frame_size 0 (lib w)
          = (n, out, l'))
    (Ho : (length out <= 1024)%nat) (Hn : n <= 1024) :
  (0 <= n ->
     exists r' res w',
       nativeDecode h (Some r) frame_size w = Ok (Some r') w' /\
       jheap w !! r' = None /\ jheap w' !! r' = Some res /\
       Z.of_nat (length res) = 2 * n) /\
  (n < 0 ->
     exists w', nativeDecode h (Some r) frame_size w = Ok None w' /\
       jheap w' = jheap w /\ nheap w' = nheap w).
Proof.
  split; intros Hsign.
  - rewrite (nativeDecode_success w h r bs frame_size n out l') by (done || lia).
    eexists _, _, _. split; [reflexivity|]. run.
    split; [apply fresh_None|]. split; [apply lookup_insert_eq|].
    rewrite length_take, length_scratch_image
      by (rewrite length_shorts_to_bytes; lia).
    lia.
  - rewrite (nativeDecode_failure w h r bs frame_size n out l') by done.
    eexists. split; [reflexivity|]. done.
Qed.

(** X3. What [nativeDecode] returns is the memory image of the first [n]
    samples the library wrote, [n] being the count it reported: all of its
    output when it wrote [n] samples, and only the first [n] of them when it
    wrote more (two channels interleaved, [n] counting samples per
    channel). *)
Theorem decode_returns_first_samples
    w h r bs (frame_size : jint) n out l'
    (Hh : h ≠ 0) (Hr : jheap w !! r = Some bs)
    (Hl : lib_decode h bs (Z.of_nat (length bs)) frame_size 0 (lib w)
          = (n, out, l'))
    (Ho : (length out <= 1024)%nat)
    (Hn : 0 <= n <= Z.of_nat (length out)) :
  exists r' w',
    nativeDecode h (Some r) frame_size w = Ok (Some r') w' /\
    jheap w' !! r' = Some (shorts_to_bytes (take (Z.to_nat n) out)).
Proof.
  rewrite (nativeDecode_success w h r bs frame_size n out l') by (done || lia).
  eexists _, _. split; [reflexivity|]. run.
  rewrite lookup_insert_eq. f_equal.
  unfold scratch_image.
  rewrite take_app_le by (rewrite length_shorts_to_bytes; lia).
  replace (Z.to_nat (n * 2)) with (2 * Z.to_nat n)%nat by lia.
  apply take_shorts_to_bytes.
Qed.

(** X4. Of a library that honours [max_data_bytes], [nativeEncode] returns
    the packet as the library wrote it, in a new Java array, and the packet
    has at most 1024 bytes. *)
Theorem encode_returns_the_packet
    w h r bs (frame_size : jint) n out l'
    (Hbound : EncodeHonoursBound)
    (Hh : h ≠ 0) (Hr : jheap w !! r = Some bs)
    (Hl : lib_encode h (bytes_to_shorts bs) frame_size 1024 (lib w)
          = (n, out, l'))
    (Hn : 0 <= n) :
  exists r' w',
    nativeEncode h (Some r) frame_size w = Ok (Some r') w' /\
    jheap w !! r' = None /\ jheap w' !! r' = Some out /\
    (length out <= 1024)%nat.
Proof.
  destruct (Hbound _ _ _ _ _ _ _ _ Hl) as [Hlen Hcount].
  specialize (Hcount Hn).
  rewrite (nativeEncode_success w h r bs frame_size n out l') by (done || lia).
  eexists _, _. split; [reflexivity|]. run.
  split; [apply fresh_None|]. split; [|lia].
  rewrite lookup_insert_eq. f_equal.
  unfold scratch_image. apply take_app_length'. lia.
Qed.


End Transforms.

(** ** Release does not invalidate a token *)

Section Reuse.

Context {L : OpusLib}.
Implicit Types (w : World) (h : jlong) (r : jref) (bs : list byte).

(** X6. Nothing remembers that a token was released.  After
    [nativeReleaseEncoder] on a nonzero token, [nativeEncode] on the same
    token still calls [opus_encode] on the destroyed instance, and a second
    release calls [opus_encoder_destroy] on it again; the same holds of the
    decoder. *)
Theorem released_token_still_reaches_library
    w h r bs (frame_size : jint)
    (Hh : h ≠ 0) (Hr : jheap w !! r = Some bs) :
  (exists rest,
     calls (final_world
              ((nativeReleaseEncoder h ;; nativeEncode h (Some r) frame_size) w))
     = calls w ++ CallEncoderDestroy h
         :: CallEncode h (bytes_to_shorts bs) frame_size 1024 :: rest) /\
  (exists rest,
     calls (final_world
              ((nativeReleaseDecoder h ;; nativeDecode h (Some r) frame_size) w))
     = calls w ++ CallDecoderDestroy h
         :: CallDecode h bs (Z.of_nat (length bs)) frame_size 0 :: rest) /\
  (exists w',
     (nativeReleaseEncoder h ;; nativeReleaseEncoder h) w = Ok tt w' /\
     calls w' = calls w ++ [CallEncoderDestroy h; CallEncoderDestroy h] /\
     lib w' = lib_encoder_destroy h (lib_encoder_destroy h (lib w))) /\
  (exists w',
     (nativeReleaseDecoder h ;; nativeReleaseDecoder h) w = Ok tt w' /\
     calls w' = calls w ++ [CallDecoderDestroy h; CallDecoderDestroy h] /\
     lib w' = lib_decoder_destroy h (lib_decoder_destroy h (lib w))).
Proof.
  unfold mbind, M_bind.
  rewrite !nativeReleaseEncoder_nonzero, !nativeReleaseDecoder_nonzero by done.
  repeat split.
  - match goal with |- context [nativeEncode h (Some r) frame_size ?w1] =>
      destruct (calls_final_nativeEncode w1 h r bs frame_size Hh Hr)
        as [rest Hrest] end.
    exists rest. rewrite Hrest. run. by rewrite <- app_assoc.
  - match goal with |- context [nativeDecode h (Some r) frame_size ?w1] =>
      destruct (calls_final_nativeDecode w1 h r bs frame_size Hh Hr)
        as [rest Hrest] end.
    exists rest. rewrite Hrest. run. by rewrite <- app_assoc.
  - eexists. split; [reflexivity|]. run. by rewrite <- app_assoc.
  - eexists. split; [reflexivity|]. run. by rewrite <- app_assoc.
Qed.

End Reuse.

(** ** The log and the call list are write-only *)

Section LogBlind.

Context {L : OpusLib}.
Implicit Types (w : World) (h : jlong) (r : jref) (bs : list byte).

Lemma same_state_refl w : same_state w w.
Proof. by repeat split. Qed.

Lemma agree_returned {A} (o1 o2 : Outcome A) :
  agree o1 o2 ->
  returned o1 = returned o2 /\ same_state (final_world o1) (final_world o2).
Proof.
  destruct o1, o2; cbn [agree returned final_world]; try done.
  by intros [-> ?].
Qed.

Lemma log_blind_ret {A} (a : A) : log_blind (mret a).
Proof. intros w1 w2 H. by split. Qed.

Lemma log_blind_bind {A B} (m : M A) (f : A -> M B) :
  log_blind m -> (forall a, log_blind (f a)) -> log_blind (m ≫= f).
Proof.
  intros Hm Hf w1 w2 H. specialize (Hm w1 w2 H).
  unfold mbind, M_bind.
  destruct (m w1) as [a1 w1'|w1'], (m w2) as [a2 w2'|w2']; try done.
  destruct Hm as [-> H']. by apply Hf.
Qed.

(** A step written as one function of the world, with the same tests on
    both sides once the two worlds are known to be the same. *)
Ltac blind_step :=
  intros [l1 j1 n1 c1 g1 s1] [l2 j2 n2 c2 g2 s2] (Hl & Hj & Hn & Hs);
  cbn [lib jheap nheap stale] in Hl, Hj, Hn, Hs; subst l2 j2 n2 s2;
  unfold GetByteArrayElements, GetArrayLength, ReleaseByteArrayElements,
    NewByteArray, SetByteArrayRegion, new_array, delete_array,
    read_block, write_block, library, LOGE, LOGI, LOGD, log,
    agree, same_state;
  run; repeat (case_match; simplify_eq); run; by repeat split.

Lemma log_blind_log prio fmt : log_blind (log prio fmt).
Proof. blind_step. Qed.

Lemma log_blind_library {A} c (f : lib_state -> A * lib_state) :
  log_blind (library c f).
Proof. blind_step. Qed.

Lemma log_blind_new_array size : log_blind (new_array size).
Proof. blind_step. Qed.

Lemma log_blind_delete_array a : log_blind (delete_array a).
Proof. blind_step. Qed.

Lemma log_blind_read_block a : log_blind (read_block a).
Proof. blind_step. Qed.

Lemma log_blind_write_block a bs : log_blind (write_block a bs).
Proof. blind_step. Qed.

Lemma log_blind_GetByteArrayElements array :
  log_blind (GetByteArrayElements array).
Proof. blind_step. Qed.

Lemma log_blind_GetArrayLength array : log_blind (GetArrayLength array).
Proof. blind_step. Qed.

Lemma log_blind_ReleaseByteArrayElements array elems mode :
  log_blind (ReleaseByteArrayElements array elems mode).
Proof. blind_step. Qed.

Lemma log_blind_NewByteArray len : log_blind (NewByteArray len).
Proof. blind_step. Qed.

Lemma log_blind_SetByteArrayRegion array start len buf :
  log_blind (SetByteArrayRegion array start len buf).
Proof. blind_step. Qed.

Ltac blind :=
  repeat first
    [ apply log_blind_ret
    | apply log_blind_bind; [|intros ?]
    | match goal with |- log_blind (if ?b then _ else _) => destruct b end
    | match goal with |- log_blind (let '(_, _) := ?p in _) => destruct p end
    | apply log_blind_log
    | apply log_blind_library
    | apply log_blind_new_array
    | apply log_blind_delete_array
    | apply log_blind_read_block
    | apply log_blind_write_block
    | apply log_blind_GetByteArrayElements
    | apply log_blind_GetArrayLength
    | apply log_blind_ReleaseByteArrayElements
    | apply log_blind_NewByteArray
    | apply log_blind_SetByteArrayRegion ].

Lemma log_blind_run_op o tokens : log_blind (run_op o tokens).
Proof.
  destruct o; cbn [run_op];
    unfold nativeInitEncoder, nativeInitDecoder, nativeEncode, nativeDecode,
      nativeGetVersion, nativeReleaseEncoder, nativeReleaseDecoder,
      opus_encode, opus_decode, opus_strerror, opus_encoder_create,
      opus_decoder_create, opus_encoder_ctl, opus_encoder_destroy,
      opus_decoder_destroy, opus_get_version_string, LOGE, LOGI, LOGD;
    blind.
Qed.

Lemma log_blind_run_ops os tokens : log_blind (run_ops os tokens).
Proof.
  revert tokens. induction os as [|o os IH]; intros tokens; cbn [run_ops].
  - apply log_blind_ret.
  - apply log_blind_bind; [apply log_blind_run_op | intros ?; apply IH].
Qed.

(** X8. [nativeGetVersion] returns the library's version string after one
    library call, and can be called at any point: the calls that follow
    return what they would have returned without it, and leave the same
    library state, Java arrays and native blocks. *)
Theorem version_query_is_transparent
    (os : list Op) (tokens : list jlong) w :
  returned (nativeGetVersion w) = Some lib_get_version_string /\
  calls (final_world (nativeGetVersion w))
    = calls w ++ [CallGetVersionString] /\
  returned ((nativeGetVersion ;; run_ops os tokens) w)
    = returned (run_ops os tokens w) /\
  lib (final_world ((nativeGetVersion ;; run_ops os tokens) w))
    = lib (final_world (run_ops os tokens w)) /\
  jheap (final_world ((nativeGetVersion ;; run_ops os tokens) w))
    = jheap (final_world (run_ops os tokens w)) /\
  nheap (final_world ((nativeGetVersion ;; run_ops os tokens) w))
    = nheap (final_world (run_ops os tokens w)).
Proof.
  split; [reflexivity|]. split; [reflexivity|].
  set (w1 := mkWorld (lib w) (jheap w) (nheap w)
               (calls w ++ [CallGetVersionString])
               (logcat w ++ [(ANDROID_LOG_INFO, "Opus version: %s"%string)])
               (stale w)).
  assert ((nativeGetVersion ;; run_ops os tokens) w = run_ops os tokens w1)
    as -> by reflexivity.
  assert (same_state w1 w) as Hsame by (by repeat split).
  destruct (agree_returned _ _ (log_blind_run_ops os tokens _ _ Hsame))
    as (Hret & Hlib & Hj & Hn & _).
  done.
Qed.

End LogBlind.

(** ** What the heaps look like after a call *)

Section Heaps.

Context {L : OpusLib}.
Implicit Types (w : World) (h : jlong) (r : jref) (bs : list byte).

(** X9. A creation always returns, touches neither Java arrays nor native
    blocks, and returns 0 exactly when the library's answer is rejected (an
    error code, or no instance): the caller's test of the token against 0 is
    exact. *)
Theorem creation_returns_zero_iff_rejected
    w (sample_rate channels application bitrate complexity : jint)
    (vbr dtx : jboolean) error st l' error_d st_d l_d
    (Henc : lib_encoder_create sample_rate channels application (lib w)
            = (error, st, l'))
    (Hdec : lib_decoder_create sample_rate channels (lib w)
            = (error_d, st_d, l_d)) :
  (exists t w',
     nativeInitEncoder sample_rate channels application bitrate complexity
       vbr dtx w = Ok t w' /\
     (t = 0 <-> rejected error st) /\
     jheap w' = jheap w /\ nheap w' = nheap w) /\
  (exists t w',
     nativeInitDecoder sample_rate channels w = Ok t w' /\
     (t = 0 <-> rejected error_d st_d) /\
     jheap w' = jheap w /\ nheap w' = nheap w).
Proof.
  assert (forall e s, accepted e s -> ~ rejected e s) as Hexcl
    by (intros e s [? ?] [?|?]; done).
  split.
  - destruct (accepted_or_rejected error st) as [Hacc|Hrej].
    + destruct (nativeInitEncoder_accepted w _ _ _ bitrate complexity vbr dtx
                  _ _ _ Henc Hacc) as (w' & -> & _ & Hj & Hn & _).
      exists st, w'. split; [done|]. split; [|done].
      split; [intros ->; by destruct Hacc | intros Hrej; by destruct (Hexcl _ _ Hacc)].
    + destruct (nativeInitEncoder_rejected w _ _ _ bitrate complexity vbr dtx
                  _ _ _ Henc Hrej) as (w' & -> & _ & Hj & Hn & _).
      by exists 0, w'.
  - destruct (accepted_or_rejected error_d st_d) as [Hacc|Hrej].
    + destruct (nativeInitDecoder_accepted w _ _ _ _ _ Hdec Hacc)
        as (w' & -> & _ & Hj & Hn & _).
      exists st_d, w'. split; [done|]. split; [|done].
      split; [intros ->; by destruct Hacc | intros Hrej; by destruct (Hexcl _ _ Hacc)].
    + destruct (nativeInitDecoder_rejected w _ _ _ _ _ Hdec Hrej)
        as (w' & -> & _ & Hj & Hn & _).
      by exists 0, w'.
Qed.

Lemma final_world_bind {A B} (m : M A) (f : A -> M B) w :
  final_world ((m ≫= f) w) =
    match m w with
    | Ok a w1 => final_world (f a w1)
    | Fault w1 => w1
    end.
Proof. unfold mbind, M_bind. by destruct (m w). Qed.

Lemma keeps_arrays_ret {A} (a : A) : keeps_arrays (mret a).
Proof. by intros w. Qed.

Lemma keeps_arrays_bind {A B} (m : M A) (f : A -> M B) :
  keeps_arrays m -> (forall a, keeps_arrays (f a)) -> keeps_arrays (m ≫= f).
Proof.
  intros Hm Hf w. rewrite final_world_bind. specialize (Hm w).
  destruct (m w) as [a w1|w1]; cbn [final_world] in Hm; [|done].
  by rewrite Hf.
Qed.

Lemma adds_at_most_one_bind {A B} (m : M A) (f : A -> M B) :
  keeps_arrays m -> (forall a, adds_at_most_one (f a)) ->
  adds_at_most_one (m ≫= f).
Proof.
  intros Hm Hf w. rewrite final_world_bind. specialize (Hm w).
  destruct (m w) as [a w1|w1]; cbn [final_world] in Hm.
  - rewrite <- Hm. apply Hf.
  - rewrite Hm. set_solver.
Qed.

Lemma adds_at_most_one_keeps {A} (m : M A) :
  keeps_arrays m -> adds_at_most_one m.
Proof. intros Hm w. rewrite Hm. set_solver. Qed.

(** The steps that leave the Java arrays alone. *)
Ltac quiet :=
  intros [? ? ? ? ? ?];
  unfold GetByteArrayElements, GetArrayLength, new_array, delete_array,
    read_block, write_block, library, LOGE, LOGI, LOGD, log;
  run; repeat case_match; done.

Lemma keeps_arrays_log prio fmt : keeps_arrays (log prio fmt).
Proof. quiet. Qed.

Lemma keeps_arrays_library {A} c (f : lib_state -> A * lib_state) :
  keeps_arrays (library c f).
Proof. quiet. Qed.

Lemma keeps_arrays_new_array size : keeps_arrays (new_array size).
Proof. quiet. Qed.

Lemma keeps_arrays_delete_array a : keeps_arrays (delete_array a).
Proof. quiet. Qed.

Lemma keeps_arrays_read_block a : keeps_arrays (read_block a).
Proof. quiet. Qed.

Lemma keeps_arrays_write_block a bs : keeps_arrays (write_block a bs).
Proof. quiet. Qed.

Lemma keeps_arrays_GetByteArrayElements array :
  keeps_arrays (GetByteArrayElements array).
Proof. quiet. Qed.

Lemma keeps_arrays_GetArrayLength array : keeps_arrays (GetArrayLength array).
Proof. quiet. Qed.

(** Released with [JNI_ABORT], the elements are not copied back. *)
Lemma keeps_arrays_Release_abort array elems :
  keeps_arrays (ReleaseByteArrayElements array elems JNI_ABORT).
Proof.
  intros [? ? ? ? ? ?]. unfold ReleaseByteArrayElements. run.
  by repeat case_match.
Qed.

(** The end of a successful transform: the result array is created, filled
    from the scratch buffer, and the buffer is freed. *)
Lemma adds_at_most_one_result (len : Z) (buf : addr) :
  adds_at_most_one
    (result ← NewByteArray len;
     SetByteArrayRegion result 0 len buf;;
     delete_array buf;;
     mret result).
Proof.
  intros [l j n c g s].
  unfold NewByteArray, SetByteArrayRegion, delete_array, mbind, M_bind,
    mret, M_ret.
  run. destruct (len <? 0); run; [set_solver|].
  destruct (n !! buf) as [src|]; run;
    [|rewrite dom_insert_L; set_solver].
  rewrite lookup_insert_eq.
  destruct (decide _); run;
    [|rewrite dom_insert_L; set_solver].
  destruct (n !! buf); run; rewrite !dom_insert_L; set_solver.
Qed.

Ltac arrays :=
  repeat first
    [ apply keeps_arrays_ret
    | apply keeps_arrays_bind; [|intros ?]
    | match goal with |- keeps_arrays (if ?b then _ else _) => destruct b end
    | match goal with |- keeps_arrays (let '(_, _) := ?p in _) =>
        destruct p end
    | apply keeps_arrays_log
    | apply keeps_arrays_library
    | apply keeps_arrays_new_array
    | apply keeps_arrays_delete_array
    | apply keeps_arrays_read_block
    | apply keeps_arrays_write_block
    | apply keeps_arrays_GetByteArrayElements
    | apply keeps_arrays_GetArrayLength
    | apply keeps_arrays_Release_abort ].

Ltac one_array :=
  repeat first
    [ apply adds_at_most_one_result
    | match goal with |- adds_at_most_one (if ?b then _ else _) =>
        destruct b end
    | apply adds_at_most_one_bind; [solve [arrays]|intros ?]
    | apply adds_at_most_one_keeps; solve [arrays] ].

(** X10. On every exit path, [nativeEncode] and [nativeDecode] remove no
    Java array and create at most one, the result. *)
Theorem at_most_one_new_array w h (array : jbyteArray) (frame_size : jint) :
  (dom (jheap w)
     ⊆ dom (jheap (final_world (nativeEncode h array frame_size w))) /\
   dom (jheap (final_world (nativeEncode h array frame_size w)))
     ⊆ {[fresh (dom (jheap w))]} ∪ dom (jheap w)) /\
  (dom (jheap w)
     ⊆ dom (jheap (final_world (nativeDecode h array frame_size w))) /\
   dom (jheap (final_world (nativeDecode h array frame_size w)))
     ⊆ {[fresh (dom (jheap w))]} ∪ dom (jheap w)).
Proof.
  split; revert w.
  - change (adds_at_most_one (nativeEncode h array frame_size)).
    unfold nativeEncode, opus_encode, opus_strerror, LOGE, LOGD. one_array.
  - change (adds_at_most_one (nativeDecode h array frame_size)).
    unfold nativeDecode, opus_decode, opus_strerror, LOGE, LOGD. one_array.
Qed.

End Heaps.

(** ** Native blocks over a history of calls *)

Section Leaks.

Context {L : OpusLib}.
Implicit Types (w : World) (h : jlong) (r : jref) (bs : list byte).

Lemma returned_bind {A B} (m : M A) (f : A -> M B) w :
  returned ((m ≫= f) w) =
    match m w with
    | Ok a w1 => returned (f a w1)
    | Fault _ => None
    end.
Proof. unfold mbind, M_bind. by destruct (m w). Qed.

Ltac run_out := cbn [returned final_world]; run.
Ltac dead := by intros [? [=]].

Lemma nheap_returned_nativeEncode w h (array : jbyteArray) fs :
  is_Some (returned (nativeEncode h array fs w)) ->
  nheap (final_world (nativeEncode h array fs w)) = nheap w.
Proof.
  pose proof (fresh_None (nheap w)) as Ha1.
  unfold nativeEncode. destruct (h =? 0); [done|].
  destruct array as [r|]; [|dead].
  unfold_prims. run.
  generalize (map (stale w) (seq 0 (Z.to_nat 1024))). intros blk.
  destruct (jheap w !! r) as [bs|] eqn:Hr; [|dead]. run. rewrite ?Hr. run.
  pose proof (fresh_insert_ne (nheap w) (fresh (dom (nheap w))) bs) as Hne.
  pose proof (fresh_insert_None (nheap w) (fresh (dom (nheap w))) bs) as Ha2.
  rewrite lookup_insert_ne by done. rewrite lookup_insert_eq. run.
  destruct (lib_encode _ _ _ _ _) as [[n out] l']. run.
  rewrite lookup_insert_eq.
  destruct (decide _); [|dead]. run.
  rewrite !lookup_insert_ne by done. rewrite lookup_insert_eq. run.
  destruct (n <? 0); run.
  - rewrite lookup_delete_ne by done. rewrite lookup_insert_eq.
    intros _. run_out. exact (blocks_released (nheap w) _ _ _ _ _ Ha1 Ha2).
  - rewrite lookup_delete_ne by done. rewrite !lookup_insert_eq.
    destruct (decide _); [|dead]. run.
    rewrite lookup_delete_ne by done. rewrite lookup_insert_eq.
    intros _. run_out. exact (blocks_released (nheap w) _ _ _ _ _ Ha1 Ha2).
Qed.

Lemma nheap_returned_nativeDecode w h (array : jbyteArray) fs :
  is_Some (returned (nativeDecode h array fs w)) ->
  nheap (final_world (nativeDecode h array fs w)) = nheap w.
Proof.
  pose proof (fresh_None (nheap w)) as Ha1.
  unfold nativeDecode. destruct (h =? 0); [done|].
  destruct array as [r|]; [|dead].
  unfold_prims. run.
  generalize (map (stale w) (seq 0 (Z.to_nat (2 * 1024)))). intros blk.
  destruct (jheap w !! r) as [bs|] eqn:Hr; [|dead]. run. rewrite ?Hr. run.
  pose proof (fresh_insert_ne (nheap w) (fresh (dom (nheap w))) bs) as Hne.
  pose proof (fresh_insert_None (nheap w) (fresh (dom (nheap w))) bs) as Ha2.
  rewrite lookup_insert_ne by done. rewrite lookup_insert_eq. run.
  destruct (lib_decode _ _ _ _ _ _) as [[n out] l']. run.
  rewrite lookup_insert_eq.
  destruct (decide _); [|dead]. run.
  rewrite !lookup_insert_ne by done. rewrite lookup_insert_eq. run.
  destruct (n <? 0); run.
  - rewrite lookup_delete_ne by done. rewrite lookup_insert_eq.
    intros _. run_out. exact (blocks_released (nheap w) _ _ _ _ _ Ha1 Ha2).
  - destruct (wrap32 (n * 2) <? 0); run; [dead|].
    rewrite lookup_delete_ne by done. rewrite !lookup_insert_eq.
    destruct (decide _); [|dead]. run.
    rewrite lookup_delete_ne by done. rewrite lookup_insert_eq.
    intros _. run_out. exact (blocks_released (nheap w) _ _ _ _ _ Ha1 Ha2).
Qed.

Lemma nheap_returned_run_op o tokens w :
  is_Some (returned (run_op o tokens w)) ->
  nheap (final_world (run_op o tokens w)) = nheap w.
Proof.
  destruct o; cbn [run_op]; rewrite returned_bind, final_world_bind.
  - intros _.
    destruct (lib_encoder_create sample_rate channels application (lib w))
      as [[error st] l'] eqn:E.
    destruct (accepted_or_rejected error st) as [Hacc|Hrej].
    + by destruct (nativeInitEncoder_accepted w _ _ _ bitrate complexity vbr
                     dtx _ _ _ E Hacc) as (w1 & -> & _ & _ & Hn & _).
    + by destruct (nativeInitEncoder_rejected w _ _ _ bitrate complexity vbr
                     dtx _ _ _ E Hrej) as (w1 & -> & _ & _ & Hn & _).
  - intros _.
    destruct (lib_decoder_create sample_rate channels (lib w))
      as [[error st] l'] eqn:E.
    destruct (accepted_or_rejected error st) as [Hacc|Hrej].
    + by destruct (nativeInitDecoder_accepted w _ _ _ _ _ E Hacc)
        as (w1 & -> & _ & _ & Hn & _).
    + by destruct (nativeInitDecoder_rejected w _ _ _ _ _ E Hrej)
        as (w1 & -> & _ & _ & Hn & _).
  - pose proof (nheap_returned_nativeEncode w handle pcm_data frame_size) as H.
    destruct (nativeEncode _ _ _ w) as [res w1|]; [|dead].
    intros _. apply H. by eexists.
  - pose proof (nheap_returned_nativeDecode w handle opus_data frame_size) as H.
    destruct (nativeDecode _ _ _ w) as [res w1|]; [|dead].
    intros _. apply H. by eexists.
  - done.
  - intros _. unfold nativeReleaseEncoder. by destruct (handle =? 0).
  - intros _. unfold nativeReleaseDecoder. by destruct (handle =? 0).
Qed.

(** X11. Whatever the library does, a history of calls into this file that
    returns to its caller leaves no native block behind and frees none that
    was there: the native heap is as it was at the start. *)
Theorem returned_history_leaks_nothing
    (os : list Op) (tokens : list jlong) w
    (Hrun : is_Some (returned (run_ops os tokens w))) :
  nheap (final_world (run_ops os tokens w)) = nheap w.
Proof.
  revert tokens w Hrun. induction os as [|o os IH]; intros tokens w; [done|].
  cbn [run_ops]. rewrite returned_bind, final_world_bind.
  pose proof (nheap_returned_run_op o tokens w) as Hop.
  destruct (run_op o tokens w) as [tokens1 w1|]; [|dead].
  intros Hrun. rewrite (IH _ _ Hrun). apply Hop. by eexists.
Qed.

End Leaks.

(** ** The further properties on concrete inputs *)

Lemma decode_returns_reported_count_witness :
  exists r' res w',
    nativeDecode (L := Toy.lib) 2 (Some 0%nat) 160
      (Toy.sessions 16000 1 [Byte.xa0; Byte.x00; Byte.x01])
      = Ok (Some r') w' /\
    jheap w' !! r' = Some res /\ Z.of_nat (length res) = 2 * 160.
Proof.
  destruct (decode_returns_reported_count (L := Toy.lib)
              (Toy.sessions 16000 1 [Byte.xa0; Byte.x00; Byte.x01]) 2 0%nat
              [Byte.xa0; Byte.x00; Byte.x01] 160 160 (replicate 160 0)
              (Toy.mkState {[1 := 1]} {[2 := 1]})) as [Hpos _];
    [lia | vm_compute; reflexivity | vm_compute; reflexivity
    | vm_compute; lia | lia |].
  destruct Hpos as (r' & res & w' & Hrun & _ & Hres & Hlen); [lia|].
  exists r', res, w'. split; [exact Hrun|]. split; [exact Hres | exact Hlen].
Defined.

Lemma decode_returns_first_samples_witness :
  exists r' w',
    nativeDecode (L := Toy.lib) 2 (Some 0%nat) 160
      (Toy.sessions 16000 2 [Byte.xa0; Byte.x00; Byte.x02])
      = Ok (Some r') w' /\
    jheap w' !! r'
      = Some (shorts_to_bytes (take (Z.to_nat 160) (replicate 320 0))).
Proof.
  apply (decode_returns_first_samples (L := Toy.lib)
           (Toy.sessions 16000 2 [Byte.xa0; Byte.x00; Byte.x02]) 2 0%nat
           [Byte.xa0; Byte.x00; Byte.x02] 160 160 (replicate 320 0)
           (Toy.mkState {[1 := 2]} {[2 := 2]}));
    [lia | vm_compute; reflexivity | vm_compute; reflexivity
    | vm_compute; lia | vm_compute; split; discriminate].
Defined.

Lemma encode_returns_the_packet_witness :
  exists r' w',
    nativeEncode (L := Toy.lib) 1 (Some 0%nat) 160
      (Toy.sessions 16000 1 (Toy.silence 320)) = Ok (Some r') w' /\
    jheap (Toy.sessions 16000 1 (Toy.silence 320)) !! r' = None /\
    jheap w' !! r' = Some [Byte.xa0; Byte.x00; Byte.x01] /\
    (length [Byte.xa0; Byte.x00; Byte.x01] <= 1024)%nat.
Proof.
  apply (encode_returns_the_packet (L := Toy.lib)
           (Toy.sessions 16000 1 (Toy.silence 320)) 1 0%nat
           (Toy.silence 320) 160 3 [Byte.xa0; Byte.x00; Byte.x01]
           (Toy.mkState {[1 := 1]} {[2 := 1]}) Toy_encode_honours_bound);
    [lia | vm_compute; reflexivity | vm_compute; reflexivity | lia].
Defined.


Lemma released_token_still_reaches_library_witness :
  exists rest,
    calls (final_world
             ((nativeReleaseEncoder (L := Toy.lib) 1 ;;
               nativeEncode 1 (Some 0%nat) 160)
                (Toy.sessions 16000 1 (Toy.silence 320))))
    = calls (Toy.sessions 16000 1 (Toy.silence 320))
        ++ CallEncoderDestroy 1
        :: CallEncode 1 (bytes_to_shorts (Toy.silence 320)) 160 1024 :: rest.
Proof.
  destruct (released_token_still_reaches_library (L := Toy.lib)
              (Toy.sessions 16000 1 (Toy.silence 320)) 1 0%nat
              (Toy.silence 320) 160) as [Henc _];
    [lia | vm_compute; reflexivity |].
  exact Henc.
Defined.

Lemma creation_returns_zero_iff_rejected_witness :
  exists t w',
    nativeInitEncoder (L := Toy.lib) 44100 1 2048 16000 5 false true
      (Toy.world []) = Ok t w' /\
    (t = 0 <-> rejected (L := Toy.lib) Toy.OPUS_BAD_ARG 0) /\
    jheap w' = jheap (Toy.world []) /\ nheap w' = nheap (Toy.world []).
Proof.
  destruct (creation_returns_zero_iff_rejected (L := Toy.lib) (Toy.world [])
              44100 1 2048 16000 5 false true
              Toy.OPUS_BAD_ARG 0 Toy.init Toy.OPUS_BAD_ARG 0 Toy.init)
    as [Henc _];
    [vm_compute; reflexivity | vm_compute; reflexivity |].
  exact Henc.
Defined.

Lemma returned_history_leaks_nothing_witness :
  nheap (final_world
           (run_ops (L := Toy.lib)
              [InitEncoder 16000 1 2048 16000 5 false true;
               InitDecoder 16000 1; Encode 1 (Some 0%nat) 160;
               Decode 2 (Some 1%nat) 160; Encode 0 None 160;
               Decode 2 (Some 0%nat) 160; ReleaseEncoder 1; ReleaseDecoder 2]
              [] (Toy.world (Toy.silence 320))))
    = nheap (Toy.world (Toy.silence 320)).
Proof.
  apply (returned_history_leaks_nothing (L := Toy.lib)).
  exists []. vm_compute; reflexivity.
Defined.
